(** * Incremental synchronisation engine of [fastgpt_sync.py]

    A shallow embedding of [FastGPTSyncer] (identity resolution, state
    migration, the remote client with its retry loop, the scan loop of
    [sync_once] and [_save_state]) together with the properties the design
    document states about them.

    Conventions of the embedding.
    - Python [str] values are [string]; file names are ASCII, on which the
      regular-expression class [\d] is ['0'..'9'] (on other names Python
      also accepts the further Unicode decimal digits, which are not
      covered here).
    - A [pathlib.Path] is the list of its [parts].
    - A Sync Record (a JSON object) and the per-run collection cache are
      [gmap string string]; the state store ["files"] is an
      insertion-ordered association list, because migration depends on the
      iteration order of the dictionary.
    - The remote service, the file tree and the clock are oracles; every
      HTTP request advances a logical clock, and every observable action is
      appended to a trace of events.
    - Within [sync_once], reading a file for its digest and [_save_state]
      are taken to succeed, and [RETRY_DELAY] to be non-negative: an error
      there is not caught by the source and ends the run. [_save_state] is
      studied on its own, call by call, in [StateFile]. *)

From Stdlib Require Import ZArith Ascii String.
From stdpp Require Import gmap strings list.

Local Open Scope Z_scope.

(** ** Strings *)

Module Str.

(** [sub in s] *)
Fixpoint contains (sub s : string) : bool :=
  String.prefix sub s ||
  match s with
  | EmptyString => false
  | String _ s' => contains sub s'
  end.

(** [s.startswith(p)] *)
Definition startswith (p s : string) : bool := String.prefix p s.

(** [s.rfind(c)], scanning from index [i]; [last] is the best index so far. *)
Fixpoint rfind_from (c : ascii) (s : string) (i last : Z) : Z :=
  match s with
  | EmptyString => last
  | String a s' => rfind_from c s' (i + 1) (if Ascii.eqb a c then i else last)
  end.

Definition rfind (c : ascii) (s : string) : Z := rfind_from c s 0 (-1).

(** [s[i:]] for [0 <= i] *)
Definition slice_from (i : Z) (s : string) : string :=
  String.substring (Z.to_nat i) (String.length s - Z.to_nat i) s.

Definition len (s : string) : Z := Z.of_nat (String.length s).

End Str.

(** ** The pattern [NCT\d{8}] and [re.search] *)

Module Re.

Inductive atom :=
| Lit (c : ascii)
| Digit.

Definition is_digit (c : ascii) : bool :=
  (48 <=? nat_of_ascii c)%nat && (nat_of_ascii c <=? 57)%nat.

Definition atom_ok (a : atom) (c : ascii) : bool :=
  match a with
  | Lit c' => Ascii.eqb c c'
  | Digit => is_digit c
  end.

(** [re.match]: the text matched by [pat] at the start of [s], if any. *)
Fixpoint match_here (pat : list atom) (s : string) : option string :=
  match pat with
  | [] => Some EmptyString
  | a :: pat' =>
    match s with
    | EmptyString => None
    | String c s' =>
      if atom_ok a c
      then match match_here pat' s' with
           | Some m => Some (String c m)
           | None => None
           end
      else None
    end
  end.

(** [re.search(pat, s).group(0)]: the leftmost match. *)
Fixpoint search (pat : list atom) (s : string) : option string :=
  match match_here pat s with
  | Some m => Some m
  | None =>
    match s with
    | EmptyString => None
    | String _ s' => search pat s'
    end
  end.

(** [r'NCT\d{8}'] *)
Definition NCT_PATTERN : list atom :=
  [Lit "N"; Lit "C"; Lit "T"] ++ replicate 8 Digit.

End Re.

(** [FastGPTSyncer._get_file_identity] *)
Definition _get_file_identity (filename : string) : string :=
  match Re.search Re.NCT_PATTERN filename with
  | Some nct => nct
  | None => filename
  end.

(** ** Paths ([pathlib.PurePosixPath], as the list of its [parts]) *)

Module PurePath.

Abbreviation path := (list string).

(** [p.name]: the final component, empty for the anchor and for [.] *)
Definition name (p : path) : string :=
  match last p with
  | Some s => if decide (s = "/") then "" else s
  | None => ""
  end.

(** [p.parent]: the anchor and [.] are their own parent *)
Definition parent (p : path) : path :=
  match last p with
  | Some s => if decide (s = "/") then p else removelast p
  | None => p
  end.

(** [p.suffix]: [name[i:]] for [i = name.rfind('.')] when
    [0 < i < len(name) - 1], else empty *)
Definition suffix (p : path) : string :=
  let nm := name p in
  let i := Str.rfind "." nm in
  if (0 <? i) && (i <? Str.len nm - 1) then Str.slice_from i nm else "".

(** [str(p.relative_to(root))] for [p] below [root] *)
Definition relative_to_str (root p : path) : string :=
  String.concat "/" (drop (length root) p).

End PurePath.

Import PurePath.

(** ** Insertion-ordered dictionaries (the ["files"] object) *)

Section OrderedDict.
Context {V : Type}.

Fixpoint od_get (k : string) (d : list (string * V)) : option V :=
  match d with
  | [] => None
  | (k', v) :: d' => if decide (k = k') then Some v else od_get k d'
  end.

(** [d[k] = v]: overwrite in place, or append a new key at the end *)
Fixpoint od_set (k : string) (v : V) (d : list (string * V)) : list (string * V) :=
  match d with
  | [] => [(k, v)]
  | (k', v') :: d' =>
    if decide (k = k') then (k, v) :: d' else (k', v') :: od_set k v d'
  end.

(** [k in d] *)
Definition od_mem (k : string) (d : list (string * V)) : bool :=
  match od_get k d with Some _ => true | None => false end.

End OrderedDict.

(** A Sync Record is a JSON object with string fields; the store maps
    identities to records. *)
Abbreviation record := (gmap string string).
Abbreviation store := (list (string * gmap string string)).

(** ** State migration (first block of [sync_once]) *)

(** [if "filename" not in val: val["filename"] = key] *)
Definition ensure_filename (key : string) (val : record) : record :=
  match val !! "filename" with
  | Some _ => val
  | None => <["filename" := key]> val
  end.

(** Body of [for key, val in original_files.items()] *)
Definition migrate_step (migrated_files : store) (item : string * record) : store :=
  let '(key, val) := item in
  let new_identity := _get_file_identity key in
  if od_mem new_identity migrated_files then migrated_files
  else od_set new_identity (ensure_filename key val) migrated_files.

Definition migrate (original_files : store) : store :=
  fold_left migrate_step original_files [].

(** ** The world outside the process *)

(** Outcome of one HTTP request: an exception of [requests], or a response
    with its status code and, after [_safe_json], the ["code"] member (absent
    when the body is no JSON object) and the ["data"] member. *)
Inductive http (A : Type) :=
| Raised
| Resp (status_code : Z) (code : option Z) (data : A).
Arguments Raised {A}.
Arguments Resp {A}.

(** ["data"] of the create call: [null], the ID itself, or an object with
    ["_id"] and ["collectionId"] members. *)
Inductive create_data :=
| CNull
| CId (id : string)
| CObj (_id collectionId : option string).

(** One element of the ["data"] list of the list call: its ["name"] and
    ["_id"] members (both absent for an element that is no object). *)
Abbreviation collection_entry := (option string * option string)%type.

(** The remote service answers by the number of requests seen so far. *)
Record Remote := {
  list_reply : nat -> string -> http (list collection_entry);
  create_reply : nat -> string -> http create_data;
  upload_reply : nat -> path -> string -> http ()
}.

(** The local tree: [Path.exists], [Path.rglob("*")] (full paths, in
    enumeration order), [Path.is_file] and the digest of [_get_file_hash]. *)
Record Tree := {
  exists_ : path -> bool;
  rglob : path -> list path;
  is_file : path -> bool;
  md5_hexdigest : path -> string
}.

(** [datetime.now()], read at a tick of the logical clock. *)
Record Clock := {
  today_str : nat -> string;
  now_isoformat : nat -> string
}.

Inductive filter_mode := Today | All.

Record Config := {
  RETRY_TIMES : Z;
  RETRY_DELAY : Z;
  FASTGPT_CN_SUBDIR : string;
  UPLOAD_FILTER_MODE : filter_mode;
  LOCAL_DIRS : list path
}.

Inductive event :=
| EvGet (name : string)
| EvCreate (name : string)
| EvPost (file_path : path) (collection_id : string)
| EvSleep (seconds : Z)
| EvHash (file_path : path)
| EvSave (files : store)
| EvResolved (name : string) (collection_id : option string)
| EvUploaded (file_path : path) (ok : bool)
| EvPrintSkip (filename collection_name : string).

Record world := {
  w_clock : nat;
  w_trace : list event
}.

Definition emit (e : event) (w : world) : world :=
  {| w_clock := w_clock w; w_trace := w_trace w ++ [e] |}.

Definition tick (w : world) : world :=
  {| w_clock := S (w_clock w); w_trace := w_trace w |}.

(** Python truthiness of an optional string *)
Definition truthy (o : option string) : bool :=
  match o with
  | Some s => negb (bool_decide (s = ""))
  | None => false
  end.

(** [a or b] on optional strings *)
Definition py_or (a b : option string) : option string :=
  if truthy a then a else b.

(** [resp.status_code == 200] and [res_json.get("code") == 200] *)
Definition ok200 {A} (r : http A) : bool :=
  match r with
  | Resp 200 (Some 200) _ => true
  | _ => false
  end.

(** ** The remote client *)

Section Client.
Variable cfg : Config.
Variable remote : Remote.

(** Step 2 of [get_or_create_collection]: the create request. *)
Definition create_collection (name : string) (w : world) : option string * world :=
  let w' := tick (emit (EvCreate name) w) in
  match create_reply remote (w_clock w) name with
  | Raised => (None, w')
  | Resp _ _ data as resp =>
    if ok200 resp
    then match data with
         | CObj _id collectionId => (py_or _id collectionId, w')
         | CId id => (Some id, w')
         | CNull => (None, w')
         end
    else (None, w')
  end.

(** [get_or_create_collection(name)], called with the default
    [parent_id=None] as [sync_once] does: one list request, then at most one
    create request; any exception ends the call with [None]. *)
Definition get_or_create_collection (name : string) (w : world)
  : option string * world :=
  let w' := tick (emit (EvGet name) w) in
  match list_reply remote (w_clock w) name with
  | Raised => (None, w')
  | Resp _ _ collections as resp =>
    match (if ok200 resp
           then List.find (fun col => bool_decide (col.1 = Some name)) collections
           else None) with
    | Some col => (col.2, w')
    | None => create_collection name w'
    end
  end.

(** Body of [for attempt in range(RETRY_TIMES)], for the [todo] attempts
    that remain. *)
Fixpoint upload_attempts (todo : nat) (attempt : Z)
    (file_path : path) (collection_id : string) (w : world) : bool * world :=
  match todo with
  | O => (false, w)
  | S todo' =>
    let resp := upload_reply remote (w_clock w) file_path collection_id in
    let w1 := tick (emit (EvPost file_path collection_id) w) in
    if ok200 resp then (true, w1)
    else
      let w2 := if attempt <? RETRY_TIMES cfg - 1
                then emit (EvSleep (RETRY_DELAY cfg)) w1 else w1 in
      upload_attempts todo' (attempt + 1) file_path collection_id w2
  end.

(** [upload_file(filepath, collection_id)] *)
Definition upload_file (file_path : path) (collection_id : string) (w : world)
  : bool * world :=
  upload_attempts (Z.to_nat (RETRY_TIMES cfg)) 0 file_path collection_id w.

End Client.

(** ** The scan loop of [sync_once] *)

(** Truthiness of [file_state]: a record that is present and not the empty
    object. *)
Definition record_truthy (file_state : option record) : bool :=
  match file_state with
  | Some r => negb (bool_decide (r = ∅))
  | None => false
  end.

(** [file_state and file_state.get("hash") == file_hash] *)
Definition unchanged (file_state : option record) (file_hash : string) : bool :=
  record_truthy file_state &&
  match file_state with
  | Some r => bool_decide (r !! "hash" = Some file_hash)
  | None => false
  end.

(** The inclusion rule: ["-zh" not in filename or ".DS_Store" in filename] *)
Definition excluded_by_marker (filename : string) : bool :=
  negb (Str.contains "-zh" filename) || Str.contains ".DS_Store" filename.

(** The grouping name (["collection_name"]) of a file under [root]. *)
Definition collection_name_of (cn_subdir : string) (root file_path : path) : string :=
  let collection_name := name (parent file_path) in
  let collection_name :=
    if bool_decide (collection_name ∈ [cn_subdir; "zh"; "en"])
    then name (parent (parent file_path)) else collection_name in
  let collection_name :=
    if bool_decide ("history" ∈ file_path) then "history" else collection_name in
  if bool_decide (collection_name = "")
     || bool_decide (collection_name ∈ ["."; "/"; name root])
  then "Default_Collection" else collection_name.

(** The record written after a successful upload. *)
Definition new_record (filename file_hash upload_time collection_id source_path : string)
  : record :=
  <["sourcePath" := source_path]>
  (<["collectionId" := collection_id]>
  (<["uploadTime" := upload_time]>
  (<["hash" := file_hash]>
  (<["filename" := filename]> ∅)))).

(** Local variables of [sync_once] and [self.state["files"]]. *)
Record run_state := {
  files : store;
  collection_cache : gmap string string;
  added : nat;
  modified : nat;
  skipped : nat;
  world_ : world
}.

Definition with_world (w : world) (s : run_state) : run_state :=
  {| files := files s; collection_cache := collection_cache s;
     added := added s; modified := modified s; skipped := skipped s;
     world_ := w |}.

Definition with_cache (c : gmap string string) (s : run_state) : run_state :=
  {| files := files s; collection_cache := c;
     added := added s; modified := modified s; skipped := skipped s;
     world_ := world_ s |}.

Definition incr_skipped (s : run_state) : run_state :=
  {| files := files s; collection_cache := collection_cache s;
     added := added s; modified := modified s; skipped := S (skipped s);
     world_ := world_ s |}.

(** The block under [if self.upload_file(...)]: write the record, count,
    save. *)
Definition record_upload (file_identity : string) (r : record)
    (had_state : bool) (s : run_state) : run_state :=
  let files' := od_set file_identity r (files s) in
  {| files := files';
     collection_cache := collection_cache s;
     added := if had_state then added s else S (added s);
     modified := if had_state then S (modified s) else modified s;
     skipped := skipped s;
     world_ := emit (EvSave files') (world_ s) |}.

(** The state after the migration block: the migrated records, saved at
    once, empty cache, zero counts. *)
Definition after_migration (original_files : store) : run_state :=
  let migrated_files := migrate original_files in
  {| files := migrated_files; collection_cache := ∅;
     added := 0; modified := 0; skipped := 0;
     world_ := {| w_clock := 0; w_trace := [EvSave migrated_files] |} |}.

Section Sync.
Variable cfg : Config.
Variable tree : Tree.
Variable clock : Clock.
Variable remote : Remote.

(** The collection ID for [collection_name]: from the cache, or from the
    remote service, cached when it is truthy. *)
Definition resolve_collection (collection_name : string) (s : run_state)
  : option string * run_state :=
  match collection_cache s !! collection_name with
  | Some id => (Some id, s)
  | None =>
    let '(collection_id, w) :=
      get_or_create_collection remote collection_name (world_ s) in
    let s1 := with_world (emit (EvResolved collection_name collection_id) w) s in
    (collection_id,
     if truthy collection_id
     then with_cache (<[collection_name := default "" collection_id]>
                        (collection_cache s1)) s1
     else s1)
  end.

(** The date rule: in mode ["today"], [not filename.startswith(today_str)] *)
Definition excluded_by_date (now : nat) (filename : string) : bool :=
  match UPLOAD_FILTER_MODE cfg with
  | Today => negb (Str.startswith (today_str clock now) filename)
  | All => false
  end.

(** Body of [for file_path in all_files] *)
Definition process_file (root file_path : path) (s : run_state) : run_state :=
  let filename := name file_path in
  if excluded_by_marker filename then s
  else if excluded_by_date (w_clock (world_ s)) filename then incr_skipped s
  else
    let file_identity := _get_file_identity filename in
    let file_hash := md5_hexdigest tree file_path in
    let s := with_world (emit (EvHash file_path) (world_ s)) s in
    let file_state := od_get file_identity (files s) in
    if unchanged file_state file_hash then incr_skipped s
    else
      let collection_name := collection_name_of (FASTGPT_CN_SUBDIR cfg) root file_path in
      let '(collection_id, s) := resolve_collection collection_name s in
      if negb (truthy collection_id)
      then with_world (emit (EvPrintSkip filename collection_name) (world_ s)) s
      else
        let id := default "" collection_id in
        let '(ok, w) := upload_file cfg remote file_path id (world_ s) in
        let s := with_world (emit (EvUploaded file_path ok) w) s in
        if ok then
          record_upload file_identity
            (new_record filename file_hash
               (now_isoformat clock (w_clock (world_ s))) id
               (relative_to_str root file_path))
            (record_truthy file_state) s
        else s.

(** [all_files] of one root *)
Definition all_files (root : path) : list path :=
  filter (fun f => is_file tree f && bool_decide (suffix f = ".md")) (rglob tree root).

(** Body of [for root in roots] *)
Definition scan_root (s : run_state) (root : path) : run_state :=
  if exists_ tree root
  then fold_left (fun s file_path => process_file root file_path s) (all_files root) s
  else s.

(** [sync_once], from the loaded ["files"] object: migrate, save, scan. *)
Definition sync_once (original_files : store) : run_state :=
  fold_left scan_root (LOCAL_DIRS cfg) (after_migration original_files).

End Sync.

(** ** [_save_state] on a file system *)

Module StateFile.

(** Directories that exist besides [.] and the anchor, and the contents of
    the regular files. *)
Record fs := {
  dirs : gset (list string);
  contents : gmap (list string) string
}.

Definition dir_exists (f : fs) (d : path) : bool :=
  bool_decide (d = []) || bool_decide (d = ["/"]) || bool_decide (d ∈ dirs f).

(** The system calls of [_save_state]. *)
Inductive fs_op :=
| Mkdir (d : path)                   (* [mkdir(parents=True, exist_ok=True)] *)
| OpenW (p : path)                   (* [open(p, "w")]: create or truncate *)
| Write (p : path) (chunk : string). (* one chunk reaching the file *)

(** [d] and its ancestors *)
Definition with_parents (d : path) : list path :=
  map (fun n => take n d) (seq 1 (length d)).

(** One call; [None] is an [OSError]. *)
Definition fs_step (f : fs) (op : fs_op) : option fs :=
  match op with
  | Mkdir d =>
    Some {| dirs := list_to_set (with_parents d) ∪ dirs f; contents := contents f |}
  | OpenW p =>
    if dir_exists f (parent p)
    then Some {| dirs := dirs f; contents := <[p := ""]> (contents f) |}
    else None
  | Write p chunk =>
    match contents f !! p with
    | Some old => Some {| dirs := dirs f; contents := <[p := old +:+ chunk]> (contents f) |}
    | None => None
    end
  end.

Fixpoint run_ops (ops : list fs_op) (f : fs) : option fs :=
  match ops with
  | [] => Some f
  | op :: ops' =>
    match fs_step f op with
    | Some f' => run_ops ops' f'
    | None => None
    end
  end.

Section Save.
(** [SYNC_STATE_DB], and the chunks [json.dump] writes for a state. *)
Variable SYNC_STATE_DB : path.
Variable json_chunks : store -> list string.

Definition save_ops (state_files : store) : list fs_op :=
  Mkdir (parent SYNC_STATE_DB)
  :: OpenW SYNC_STATE_DB
  :: map (Write SYNC_STATE_DB) (json_chunks state_files).

(** [_save_state] run to its end *)
Definition _save_state (state_files : store) (f : fs) : option fs :=
  run_ops (save_ops state_files) f.

(** [_save_state] interrupted after [k] calls *)
Definition interrupted (k : nat) (state_files : store) (f : fs) : option fs :=
  run_ops (take k (save_ops state_files)) f.

(** The text of a complete dump *)
Definition json_text (state_files : store) : string :=
  foldr String.append "" (json_chunks state_files).

End Save.

End StateFile.

(** ** Vocabulary of the design document *)

(** A decimal digit *)
Definition decimal_digit (c : ascii) : Prop :=
  In c (list_ascii_of_string "0123456789").

(** The identity token: the three-letter literal prefix followed by exactly
    eight decimal digits. *)
Definition is_token (t : string) : Prop :=
  ∃ d, t = "NCT" +:+ d ∧ String.length d = 8%nat ∧
       Forall decimal_digit (list_ascii_of_string d).

(** [t] occurs in [s] at offset [i] *)
Definition occurs_at (i : nat) (t s : string) : Prop :=
  ∃ pre post, s = pre +:+ t +:+ post ∧ String.length pre = i.

(** The file name contains a token *)
Definition has_token (s : string) : Prop :=
  ∃ t i, is_token t ∧ occurs_at i t s.

(** The first item, in iteration order, whose key resolves to [id] *)
Definition first_resolving_to (id : string) (original_files : store)
  : option (string * record) :=
  List.find (fun item => bool_decide (_get_file_identity item.1 = id)) original_files.

(** A store in migrated form: distinct keys, each its own identity, every
    record with a ["filename"]. *)
Definition migrated (d : store) : Prop :=
  NoDup d.*1 ∧
  Forall (fun item => _get_file_identity item.1 = item.1 ∧
                      is_Some (item.2 !! "filename")) d.

(** The variant subdirectory names, and the names that cannot serve as a
    grouping name under [root]. *)
Definition variant_names (cn_subdir : string) : list string := [cn_subdir; "zh"; "en"].

Definition usable (root : path) (n : string) : Prop :=
  n ≠ "" ∧ n ∉ ["."; "/"; name root].

(** The grouping name in the words of the design: the archive marker when a
    segment of the path equals it, else the grandparent's name when the
    parent is a variant subdirectory, else the parent's name; the default
    when that name is not usable. *)
Definition grouping_name (cn_subdir : string) (root file_path : path) : string :=
  let candidate :=
    if decide ("history" ∈ file_path) then "history"
    else if decide (name (parent file_path) ∈ variant_names cn_subdir)
         then name (parent (parent file_path))
         else name (parent file_path) in
  if decide (usable root candidate) then candidate else "Default_Collection".

(** The trace of a run state *)
Definition trace (s : run_state) : list event := w_trace (world_ s).

(** What resolving [collection_name] does to the cache, with the events it
    adds and the ID it yields: a hit in the cache, or one call of the client. *)
Definition resolution (collection_name : string) (cache cache' : gmap string string)
    (evs : list event) (collection_id : option string) : Prop :=
  (∃ id, cache !! collection_name = Some id ∧ collection_id = Some id ∧
         evs = [] ∧ cache' = cache) ∨
  (cache !! collection_name = None ∧
   (evs = [EvGet collection_name; EvResolved collection_name collection_id] ∨
    evs = [EvGet collection_name; EvCreate collection_name;
           EvResolved collection_name collection_id]) ∧
   cache' = if truthy collection_id
            then <[collection_name := default "" collection_id]> cache
            else cache).

(** The requests and pauses of one [upload_file] call *)
Definition upload_events (delay : Z) (file_path : path) (id : string)
    (evs : list event) : Prop :=
  Forall (fun e => e = EvPost file_path id ∨ e = EvSleep delay) evs.

(** The six ways [process_file] ends for one file, with the events it adds. *)
Inductive outcome (cfg : Config) (tree : Tree) (clock : Clock)
    (root file_path : path) (s s' : run_state) (evs : list event) : Prop :=
| OutMarker :
    excluded_by_marker (name file_path) = true →
    s' = s → evs = [] → outcome cfg tree clock root file_path s s' evs
| OutDate :
    excluded_by_marker (name file_path) = false →
    excluded_by_date cfg clock (w_clock (world_ s)) (name file_path) = true →
    s' = incr_skipped s → evs = [] → outcome cfg tree clock root file_path s s' evs
| OutUnchanged :
    excluded_by_marker (name file_path) = false →
    excluded_by_date cfg clock (w_clock (world_ s)) (name file_path) = false →
    unchanged (od_get (_get_file_identity (name file_path)) (files s))
              (md5_hexdigest tree file_path) = true →
    s' = incr_skipped (with_world (emit (EvHash file_path) (world_ s)) s) →
    evs = [EvHash file_path] → outcome cfg tree clock root file_path s s' evs
| OutCollectionError revs collection_id :
    excluded_by_marker (name file_path) = false →
    excluded_by_date cfg clock (w_clock (world_ s)) (name file_path) = false →
    unchanged (od_get (_get_file_identity (name file_path)) (files s))
              (md5_hexdigest tree file_path) = false →
    resolution (collection_name_of (FASTGPT_CN_SUBDIR cfg) root file_path)
               (collection_cache s) (collection_cache s') revs collection_id →
    truthy collection_id = false →
    files s' = files s → added s' = added s → modified s' = modified s →
    skipped s' = skipped s →
    evs = EvHash file_path :: revs ++
          [EvPrintSkip (name file_path)
             (collection_name_of (FASTGPT_CN_SUBDIR cfg) root file_path)] →
    outcome cfg tree clock root file_path s s' evs
| OutUploadFailed revs id uevs :
    excluded_by_marker (name file_path) = false →
    excluded_by_date cfg clock (w_clock (world_ s)) (name file_path) = false →
    unchanged (od_get (_get_file_identity (name file_path)) (files s))
              (md5_hexdigest tree file_path) = false →
    resolution (collection_name_of (FASTGPT_CN_SUBDIR cfg) root file_path)
               (collection_cache s) (collection_cache s') revs (Some id) →
    truthy (Some id) = true →
    upload_events (RETRY_DELAY cfg) file_path id uevs →
    files s' = files s → added s' = added s → modified s' = modified s →
    skipped s' = skipped s →
    evs = EvHash file_path :: revs ++ uevs ++ [EvUploaded file_path false] →
    outcome cfg tree clock root file_path s s' evs
| OutUploaded revs id uevs upload_time :
    excluded_by_marker (name file_path) = false →
    excluded_by_date cfg clock (w_clock (world_ s)) (name file_path) = false →
    unchanged (od_get (_get_file_identity (name file_path)) (files s))
              (md5_hexdigest tree file_path) = false →
    resolution (collection_name_of (FASTGPT_CN_SUBDIR cfg) root file_path)
               (collection_cache s) (collection_cache s') revs (Some id) →
    truthy (Some id) = true →
    upload_events (RETRY_DELAY cfg) file_path id uevs →
    files s' = od_set (_get_file_identity (name file_path))
                 (new_record (name file_path) (md5_hexdigest tree file_path)
                    upload_time id (relative_to_str root file_path))
                 (files s) →
    added s' = (if record_truthy (od_get (_get_file_identity (name file_path)) (files s))
                then added s else S (added s)) →
    modified s' = (if record_truthy (od_get (_get_file_identity (name file_path)) (files s))
                   then S (modified s) else modified s) →
    skipped s' = skipped s →
    evs = EvHash file_path :: revs ++ uevs ++
          [EvUploaded file_path true; EvSave (files s')] →
    outcome cfg tree clock root file_path s s' evs.

(** The files one run examines, in order, each with its scan root *)
Definition scan_list (cfg : Config) (tree : Tree) : list (path * path) :=
  concat (map (fun root => if exists_ tree root
                           then map (pair root) (all_files tree root) else [])
              (LOCAL_DIRS cfg)).

(** A file that passes the inclusion rule and the date rule on day [today] *)
Definition eligible (cfg : Config) (today : string) (file_path : path) : Prop :=
  excluded_by_marker (name file_path) = false ∧
  (UPLOAD_FILTER_MODE cfg = All ∨ Str.startswith today (name file_path) = true).

(** The record of the file's identity holds the file's current fingerprint *)
Definition synced (tree : Tree) (state_files : store) (file_path : path) : Prop :=
  ∃ r, od_get (_get_file_identity (name file_path)) state_files = Some r ∧
       r !! "hash" = Some (md5_hexdigest tree file_path).

(** A collection resolution without ID, or an upload that returned [False] *)
Definition failure_event (e : event) : bool :=
  match e with
  | EvResolved _ collection_id => negb (truthy collection_id)
  | EvUploaded _ ok => negb ok
  | _ => false
  end.

(** A run in which no resolution and no upload failed *)
Definition successful (t : list event) : Prop :=
  forallb (fun e => negb (failure_event e)) t = true.

(** The grouping name an event asks the remote service about, and the
    grouping name it resolves to an ID *)
Definition requests (e : event) : option string :=
  match e with
  | EvGet n | EvCreate n | EvResolved n _ => Some n
  | _ => None
  end.

Definition resolves (e : event) : option string :=
  match e with
  | EvResolved n collection_id => if truthy collection_id then Some n else None
  | _ => None
  end.

(** No event of [t] asks about a name in [seen] or about a name resolved
    earlier in [t]. *)
Fixpoint once (seen : gset string) (t : list event) : Prop :=
  match t with
  | [] => True
  | e :: t' =>
    (∀ n, requests e = Some n → n ∉ seen) ∧
    once (match resolves e with Some n => {[n]} ∪ seen | None => seen end) t'
  end.

(** The names resolved to an ID in [t] *)
Definition resolved_names (t : list event) : gset string :=
  list_to_set (omap resolves t).

(** The number of calls of [get_or_create_collection] for [n] in [t] *)
Definition resolution_calls (n : string) (t : list event) : nat :=
  length (List.filter (fun e => match e with
                                | EvResolved n' _ => bool_decide (n' = n)
                                | _ => false
                                end) t).

(** The file an event reads or uploads *)
Definition touches (e : event) : option path :=
  match e with
  | EvPost p _ | EvHash p | EvUploaded p _ => Some p
  | _ => None
  end.

(** The events of [k] failed upload attempts, each followed by the delay *)
Definition failed_attempts (file_path : path) (collection_id : string)
    (delay : Z) (k : nat) : list event :=
  concat (replicate k [EvPost file_path collection_id; EvSleep delay]).

(** [m] is matched by [pat], character by character *)
Fixpoint matches (pat : list Re.atom) (m : string) : Prop :=
  match pat, m with
  | [], EmptyString => True
  | a :: pat', String c m' => Re.atom_ok a c = true ∧ matches pat' m'
  | _, _ => False
  end.

(** ** Concrete scenarios *)

Module Scenario.

Definition w0 : world := {| w_clock := 0; w_trace := [] |}.

(** Three attempts, five seconds apart, every file eligible. *)
Definition cfg_all : Config :=
  {| RETRY_TIMES := 3; RETRY_DELAY := 5; FASTGPT_CN_SUBDIR := "cn";
     UPLOAD_FILTER_MODE := All; LOCAL_DIRS := [["output"]] |}.

Definition cfg_today : Config :=
  {| RETRY_TIMES := 3; RETRY_DELAY := 5; FASTGPT_CN_SUBDIR := "cn";
     UPLOAD_FILTER_MODE := Today; LOCAL_DIRS := [["output"]] |}.

Definition clock0 : Clock :=
  {| today_str := fun _ => "2025-01-01"; now_isoformat := fun _ => "2025-01-01T02:00:00" |}.

(** A service that always succeeds and names each new collection after its
    grouping. *)
Definition remote_ok : Remote :=
  {| list_reply := fun _ _ => Resp 200 (Some 200) [];
     create_reply := fun _ name => Resp 200 (Some 200) (CId ("id-" +:+ name));
     upload_reply := fun _ _ _ => Resp 200 (Some 200) () |}.

(** A service whose first two requests fail in transport. *)
Definition remote_flaky : Remote :=
  {| list_reply := fun n _ =>
       if (n <? 2)%nat then Raised else Resp 200 (Some 200) [];
     create_reply := fun n name =>
       if (n <? 2)%nat then Raised else Resp 200 (Some 200) (CId ("id-" +:+ name));
     upload_reply := fun n _ _ =>
       if (n <? 2)%nat then Raised else Resp 200 (Some 200) () |}.

(** A service that refuses to create the collection ["history"]. *)
Definition remote_no_history : Remote :=
  {| list_reply := fun _ _ => Resp 200 (Some 200) [];
     create_reply := fun _ name =>
       if bool_decide (name = "history") then Resp 500 None CNull
       else Resp 200 (Some 200) (CId ("id-" +:+ name));
     upload_reply := fun _ _ _ => Resp 200 (Some 200) () |}.

(** A service on which every upload fails. *)
Definition remote_no_upload : Remote :=
  {| list_reply := fun _ _ => Resp 200 (Some 200) [];
     create_reply := fun _ name => Resp 200 (Some 200) (CId ("id-" +:+ name));
     upload_reply := fun _ _ _ => Resp 500 None () |}.

Definition tree_of (paths : list path) (digest : path -> string) : Tree :=
  {| exists_ := fun _ => true; rglob := fun _ => paths;
     is_file := fun _ => true; md5_hexdigest := digest |}.

(** The file of the design document's example. *)
Definition doc_file : path := ["output"; "trials"; "2025-01-01-NCT01234567-zh.md"].

Definition tree_one : Tree := tree_of [doc_file] (fun _ => "d41d8cd9").

(** Two dated variants of one trial, with different contents. *)
Definition variant_a : path := ["output"; "trials"; "2025-01-01-NCT01234567-zh.md"].
Definition variant_b : path := ["output"; "trials"; "2025-01-02-NCT01234567-zh.md"].

Definition tree_variants : Tree :=
  tree_of [variant_a; variant_b]
          (fun p => if bool_decide (p = variant_a) then "aaaa" else "bbbb").

(** Two archived files and one current file. *)
Definition tree_history : Tree :=
  tree_of [["output"; "history"; "2025-01-01-NCT00000001-zh.md"];
           ["output"; "history"; "2025-01-01-NCT00000002-zh.md"];
           ["output"; "trials"; "2025-01-01-NCT00000003-zh.md"]]
          (fun p => name p).

(** The state file, a disk that holds an earlier state, and an encoder that
    writes its text in two chunks. *)
Definition state_db : path := ["data"; "fastgpt_sync_state.json"].

Definition disk_old : StateFile.fs :=
  {| StateFile.dirs := {[ ["data"] ]};
     StateFile.contents := {[ state_db := "OLD-STATE" ]} |}.

Definition two_chunks (state_files : store) : list string := ["NEW-"; "STATE"].

(** No upload attempt is configured. *)
Definition cfg_no_attempt : Config :=
  {| RETRY_TIMES := 0; RETRY_DELAY := 5; FASTGPT_CN_SUBDIR := "cn";
     UPLOAD_FILTER_MODE := All; LOCAL_DIRS := [["output"]] |}.

End Scenario.

(** ** Further string methods *)

Module PyStr.

(** [c.isspace()] on ASCII: tab to carriage return, the four separators
    [\x1c]..[\x1f], and the space *)
Definition is_space (c : ascii) : bool :=
  let n := nat_of_ascii c in
  ((9 <=? n)%nat && (n <=? 13)%nat) || ((28 <=? n)%nat && (n <=? 32)%nat).

(** [s.lstrip(chars)] and [s.rstrip(chars)], for the characters that satisfy [p] *)
Fixpoint lstrip_by (p : ascii -> bool) (s : string) : string :=
  match s with
  | EmptyString => EmptyString
  | String a s' => if p a then lstrip_by p s' else s
  end.

Fixpoint rstrip_by (p : ascii -> bool) (s : string) : string :=
  match s with
  | EmptyString => EmptyString
  | String a s' =>
    match rstrip_by p s' with
    | EmptyString => if p a then EmptyString else String a EmptyString
    | r => String a r
    end
  end.

(** [s.strip()] *)
Definition strip (s : string) : string := lstrip_by is_space (rstrip_by is_space s).

(** [s.rstrip(c)] for a one-character [c] *)
Definition rstrip_char (c : ascii) (s : string) : string := rstrip_by (Ascii.eqb c) s.

(** [s.endswith(suf)] *)
Fixpoint endswith (suf s : string) : bool :=
  String.eqb s suf ||
  match s with
  | EmptyString => false
  | String _ s' => endswith suf s'
  end.

(** [s.split(sep)] for a one-character [sep]: the first piece and the
    others *)
Fixpoint split_aux (sep : ascii) (s : string) : string * list string :=
  match s with
  | EmptyString => (EmptyString, [])
  | String a s' =>
    let '(h, t) := split_aux sep s' in
    if Ascii.eqb a sep then (EmptyString, h :: t) else (String a h, t)
  end.

Definition split (sep : ascii) (s : string) : list string :=
  let '(h, t) := split_aux sep s in h :: t.

(** [[d.strip() for d in l if d.strip()]] *)
Definition strip_nonempty (l : list string) : list string :=
  map strip (List.filter (fun d => negb (String.eqb (strip d) "")) l).

End PyStr.

(** ** [_get_api_base] *)

Module ApiBase.

(** The pieces of the pattern [https?://[^/]+]: a literal, an optional
    character, and a non-empty greedy run of characters other than one. *)
Inductive rx :=
| RLit (l : string)
| ROpt (c : ascii)
| RPlusNot (c : ascii).

(** [[^c]+] followed by the continuation [k]: as many characters as
    possible, fewer when [k] fails after them. *)
Fixpoint plus_not (c : ascii) (k : string -> option string) (s : string)
  : option string :=
  match s with
  | EmptyString => None
  | String a s' =>
    if Ascii.eqb a c then None
    else match plus_not c k s' with
         | Some m => Some (String a m)
         | None => match k s' with
                   | Some m => Some (String a m)
                   | None => None
                   end
         end
  end.

(** The text an anchored match of [pat] consumes at the start of [s]
    ([re.match(pat, s).group(0)]) *)
Fixpoint rmatch (pat : list rx) (s : string) : option string :=
  match pat with
  | [] => Some EmptyString
  | RLit l :: pat' =>
    if String.prefix l s
    then match rmatch pat' (String.substring (String.length l)
                              (String.length s - String.length l) s) with
         | Some m => Some (l +:+ m)
         | None => None
         end
    else None
  | ROpt c :: pat' =>
    match s with
    | String a s' =>
      if Ascii.eqb a c
      then match rmatch pat' s' with
           | Some m => Some (String a m)
           | None => rmatch pat' s
           end
      else rmatch pat' s
    | EmptyString => rmatch pat' s
    end
  | RPlusNot c :: pat' => plus_not c (rmatch pat') s
  end.

(** [r'(https?://[^/]+)'] *)
Definition ROOT_PATTERN : list rx :=
  [RLit "http"; ROpt "s"; RLit "://"; RPlusNot "/"].

(** [_get_api_base], for the configured [FASTGPT_BASE_URL] *)
Definition _get_api_base (FASTGPT_BASE_URL : string) : string :=
  match rmatch ROOT_PATTERN FASTGPT_BASE_URL with
  | Some root => root +:+ "/api"
  | None => PyStr.rstrip_char "/" FASTGPT_BASE_URL
  end.

End ApiBase.

(** ** [_parse_dirs] *)

Module ParseDirs.

(** What [json.loads] returns when it does not raise: a list, each item a
    string or a value of another type, or a value that is no list. *)
Inductive parsed :=
| NotAList
| Items (items : list (option string)).

(** The items when all of them are strings ([p.strip()] raises on another
    value) *)
Fixpoint all_strings (items : list (option string)) : option (list string) :=
  match items with
  | [] => Some []
  | Some p :: items' =>
    match all_strings items' with
    | Some ps => Some (p :: ps)
    | None => None
    end
  | None :: _ => None
  end.

Section WithJson.
(** [json.loads]; [None] when it raises *)
Variable json_loads : string -> option parsed.

(** The condition of the JSON branch *)
Definition bracketed (raw_val : string) : bool :=
  Str.startswith "[" (PyStr.strip raw_val) && PyStr.endswith "]" (PyStr.strip raw_val).

Definition _parse_dirs (raw_val : string) : list string :=
  if String.eqb raw_val "" then []
  else
    let by_commas := PyStr.strip_nonempty (PyStr.split "," raw_val) in
    if bracketed raw_val
    then match json_loads raw_val with
         | Some (Items items) =>
           match all_strings items with
           | Some ps => PyStr.strip_nonempty ps
           | None => by_commas
           end
         | _ => by_commas
         end
    else by_commas.

End WithJson.

(** A directory name that survives the parsing as it is: not empty, no
    blank at either end, no comma *)
Definition clean_dir (d : string) : Prop :=
  d ≠ "" ∧ PyStr.strip d = d ∧ Str.contains "," d = false.

End ParseDirs.

(** ** [_get_file_hash] *)

Module FileHash.

(** The size passed to [f.read] *)
Definition CHUNK_SIZE : nat := Z.to_nat 4096.

(** [f.read(n)] with [rest] left in the file: the bytes read and the bytes
    left *)
Definition read (n : nat) (rest : list Byte.byte) : list Byte.byte * list Byte.byte :=
  (take n rest, drop n rest).

Section WithMd5.
(** [hashlib.md5()], [hasher.update] and [hasher.hexdigest] *)
Variable hasher : Type.
Variable md5 : hasher.
Variable update : hasher -> list Byte.byte -> hasher.
Variable hexdigest : hasher -> string.

(** [for chunk in iter(lambda: f.read(4096), b""): hasher.update(chunk)],
    for at most [fuel] reads; [None] when the reads are used up before the
    empty chunk is met. *)
Fixpoint read_loop (fuel : nat) (h : hasher) (rest : list Byte.byte) : option hasher :=
  match fuel with
  | O => None
  | S fuel' =>
    let '(chunk, rest') := read CHUNK_SIZE rest in
    match chunk with
    | [] => Some h
    | _ => read_loop fuel' (update h chunk) rest'
    end
  end.

Definition _get_file_hash (fuel : nat) (content : list Byte.byte) : option string :=
  hexdigest <$> read_loop fuel md5 content.

End WithMd5.

End FileHash.

(** ** [_load_state] *)

Module LoadState.
Import StateFile.

(** What [json.load] gives for the text of a state file when it does not
    raise: an object, with its ["files"] member when it has one, or a value
    that is no object. *)
Inductive state_value :=
| StateObject (state_files : option store)
| OtherValue.

(** [{"files": {}}] *)
Definition empty_state : state_value := StateObject (Some []).

(** [path.exists()] *)
Definition path_exists (f : fs) (p : path) : bool :=
  bool_decide (is_Some (contents f !! p)) || dir_exists f p.

Section Load.
Variable SYNC_STATE_DB : path.
(** [json.load]; [None] when it raises *)
Variable json_load : string -> option state_value.

(** [_load_state]: the empty state when the file is missing, cannot be
    opened (a directory) or cannot be parsed *)
Definition _load_state (f : fs) : state_value :=
  if path_exists f SYNC_STATE_DB
  then match contents f !! SYNC_STATE_DB with
       | Some text =>
         match json_load text with
         | Some v => v
         | None => empty_state
         end
       | None => empty_state
       end
  else empty_state.

End Load.

End LoadState.

(** ** [main] of [fastgpt_sync.py] and [auto_pipeline] of [main.py] *)

Module Main.

(** What [main] goes on to do, from the parsed arguments *)
Inductive action :=
| RunOnce (mode : filter_mode)              (* [syncer.sync_once()] *)
| StartDaemon (mode : filter_mode) (hour minute : string)
| UnpackError                               (* [ValueError] of the unpacking *)
| PrintHelp.

(** [main], for the arguments [--once], [--daemon] and [--mode] and the
    configured [DAILY_SYNC_TIME] *)
Definition main (once daemon : bool) (mode : filter_mode) (DAILY_SYNC_TIME : string)
  : action :=
  if once then RunOnce mode
  else if daemon
  then match PyStr.split ":" DAILY_SYNC_TIME with
       | [hour; minute] => StartDaemon mode hour minute
       | _ => UnpackError
       end
  else PrintHelp.

(** A step of [auto_pipeline]: the script, its description, its arguments *)
Record step := {
  script_name : string;
  description : string;
  args : option (list string)
}.

(** [steps] of [auto_pipeline], for the global [UPLOAD_MODE] *)
Definition steps (UPLOAD_MODE : string) : list step :=
  [ {| script_name := "daily_ctgov_check_tgbot.py";
       description := "步骤 1/3: 从 ClinicalTrials.gov 下载最新试验数据";
       args := None |};
    {| script_name := "ctgov_full_sync_rag.py";
       description := "步骤 2/3: 全文翻译并生成 RAG 语料";
       args := None |};
    {| script_name := "fastgpt_sync.py";
       description := "步骤 3/3: 同步到 FastGPT (模式: " +:+ UPLOAD_MODE +:+ ")";
       args := Some ["--once"; "--mode=" +:+ UPLOAD_MODE] |} ].

(** The loop of [auto_pipeline] over [todo], with the outcome of [run_step]
    for each step: the success count and the steps that were run, in order *)
Fixpoint run_steps (run_step : step -> bool) (todo : list step)
    (success_count : nat) (ran : list step) : nat * list step :=
  match todo with
  | [] => (success_count, ran)
  | st :: todo' =>
    if run_step st
    then run_steps run_step todo' (S success_count) (ran ++ [st])
    else (success_count, ran ++ [st])
  end.

Definition auto_pipeline (run_step : step -> bool) (UPLOAD_MODE : string)
  : nat * list step :=
  run_steps run_step (steps UPLOAD_MODE) 0 [].

End Main.

(** ** Further concrete scenarios *)

Module Fixture.

(** A hasher that keeps what it was fed, for the laws of [hashlib] *)
Definition keep_update (h chunk : list Byte.byte) : list Byte.byte := h ++ chunk.

Definition keep_hexdigest (h : list Byte.byte) : string := String.string_of_list_byte h.

(** A decoder that reads back the text of [Scenario.two_chunks] as the
    empty store *)
Definition load_two_chunks (text : string) : option LoadState.state_value :=
  if String.eqb text "NEW-STATE" then Some (LoadState.StateObject (Some []))
  else None.

End Fixture.

(** ** Counting events *)

(** The number of events of [t] that satisfy [p] *)
Definition count_events (p : event -> bool) (t : list event) : nat :=
  length (List.filter p t).

(** An upload that returned [True]; a save of the state; an HTTP request;
    the report of a file given up (no collection, or upload failed) *)
Definition is_upload_ok (e : event) : bool :=
  match e with EvUploaded _ true => true | _ => false end.

Definition is_save (e : event) : bool :=
  match e with EvSave _ => true | _ => false end.

Definition is_request (e : event) : bool :=
  match e with EvGet _ | EvCreate _ | EvPost _ _ => true | _ => false end.

Definition is_given_up (e : event) : bool :=
  match e with EvPrintSkip _ _ | EvUploaded _ false => true | _ => false end.

(** * Properties *)

(** ** Identity resolution *)

Lemma str_app_nil s : "" +:+ s = s.
Proof. reflexivity. Qed.

Lemma str_app_cons c s t : String c s +:+ t = String c (s +:+ t).
Proof. reflexivity. Qed.

Ltac str_simpl := rewrite ?str_app_nil, ?str_app_cons in *.

Lemma is_digit_decimal c : Re.is_digit c = true ↔ decimal_digit c.
Proof.
  unfold decimal_digit. split.
  - destruct c as [[] [] [] [] [] [] [] []]; vm_compute; intros H;
      first [discriminate H | tauto].
  - cbn. intros H. repeat (destruct H as [<- | H]; [reflexivity |]). destruct H.
Qed.

Lemma matches_digits n d :
  matches (replicate n Re.Digit) d ↔
  String.length d = n ∧ Forall decimal_digit (list_ascii_of_string d).
Proof.
  revert d. induction n as [|n IH]; intros [|c d]; cbn.
  - split; [intros _; split; [reflexivity | constructor] | tauto].
  - split; [tauto | intros [H _]; discriminate H].
  - split; [tauto | intros [H _]; discriminate H].
  - rewrite IH, is_digit_decimal. split.
    + intros (Hc & Hl & Hd). split; [congruence | by constructor].
    + intros (Hl & Hd). inversion Hd; subst. repeat split; [done | congruence | done].
Qed.

Lemma matches_token t : matches Re.NCT_PATTERN t ↔ is_token t.
Proof.
  unfold is_token, Re.NCT_PATTERN. split.
  - destruct t as [|c1 [|c2 [|c3 d]]]; cbn; try tauto.
    intros (H1 & H2 & H3 & Hd).
    apply Ascii.eqb_eq in H1, H2, H3. subst.
    exists d. split; [reflexivity |].
    by apply (matches_digits 8).
  - intros (d & -> & Hl & Hd). cbn.
    repeat split. by apply (matches_digits 8).
Qed.

Lemma match_here_sound pat s m :
  Re.match_here pat s = Some m → matches pat m ∧ ∃ post, s = m +:+ post.
Proof.
  revert s m. induction pat as [|a pat IH]; intros s m; cbn.
  - intros [= <-]. split; [exact I | by exists s].
  - destruct s as [|c s]; [discriminate |].
    destruct (Re.atom_ok a c) eqn:Ha; [| discriminate].
    destruct (Re.match_here pat s) as [m'|] eqn:Hm; [| discriminate].
    intros [= <-]. destruct (IH _ _ Hm) as (Hp & post & ->).
    split; [by split | by exists post].
Qed.

Lemma match_here_complete pat m post :
  matches pat m → Re.match_here pat (m +:+ post) = Some m.
Proof.
  revert m. induction pat as [|a pat IH]; intros [|c m]; try (cbn; tauto).
  intros [Ha Hm]. change (Re.match_here (a :: pat) (String c m +:+ post))
    with (if Re.atom_ok a c
          then match Re.match_here pat (m +:+ post) with
               | Some m0 => Some (String c m0)
               | None => None
               end
          else None).
  by rewrite Ha, (IH _ Hm).
Qed.

Lemma search_none pat s :
  Re.search pat s = None →
  ∀ pre m post, s = pre +:+ m +:+ post → ¬ matches pat m.
Proof.
  induction s as [|c s IH]; cbn.
  - destruct (Re.match_here pat "") eqn:Hm; [discriminate |].
    intros _ [|? ?] m post; [| discriminate]. intros Heq Hp. str_simpl.
    pose proof (match_here_complete _ _ post Hp) as Hc.
    rewrite <- Heq in Hc. congruence.
  - destruct (Re.match_here pat (String c s)) eqn:Hm; [discriminate |].
    intros Hs [|c' pre] m post; str_simpl.
    + intros Heq Hp. pose proof (match_here_complete _ _ post Hp) as Hc.
      rewrite <- Heq in Hc. congruence.
    + intros [= <- Heq]. by apply (IH Hs pre m post).
Qed.

Lemma search_some pat s m :
  Re.search pat s = Some m →
  ∃ i, matches pat m ∧ occurs_at i m s ∧
       ∀ j m', matches pat m' → occurs_at j m' s → (i ≤ j)%nat.
Proof.
  revert m. induction s as [|c s IH]; intros m; cbn.
  - destruct (Re.match_here pat "") eqn:Hm; [| discriminate].
    intros [= ->]. destruct (match_here_sound _ _ _ Hm) as (Hp & post & Heq).
    exists 0%nat. split; [done |]. split; [by exists "", post | lia].
  - destruct (Re.match_here pat (String c s)) eqn:Hm.
    + intros [= ->]. destruct (match_here_sound _ _ _ Hm) as (Hp & post & Heq).
      exists 0%nat. split; [done |]. split; [by exists "", post | lia].
    + intros Hs. destruct (IH _ Hs) as (i & Hp & (pre & post & -> & Hi) & Hmin).
      exists (S i). split; [done |]. split.
      * exists (String c pre), post. str_simpl. cbn. by rewrite Hi.
      * intros j m' Hp' (pre' & post' & Heq & Hj).
        destruct pre' as [|c' pre']; str_simpl; cbn in Hj.
        -- pose proof (match_here_complete _ _ post' Hp') as Hc.
           rewrite <- Heq in Hc. congruence.
        -- injection Heq as -> Heq. subst j.
           apply le_n_S, (Hmin _ m' Hp'). by exists pre', post'.
Qed.



(** ** Ordered dictionaries *)

Section OrderedDictFacts.
Context {V : Type}.
Implicit Types (d : list (string * V)) (k : string) (v : V).

Lemma od_get_set_eq k v d : od_get k (od_set k v d) = Some v.
Proof.
  induction d as [|[k' v'] d IH]; cbn; repeat case_decide; cbn;
    repeat case_decide; congruence.
Qed.

Lemma od_get_set_ne k k' v d : k ≠ k' → od_get k' (od_set k v d) = od_get k' d.
Proof.
  intros Hne. induction d as [|[k0 v0] d IH]; cbn; repeat case_decide; cbn;
    repeat case_decide; congruence.
Qed.

Lemma od_get_None k d : od_get k d = None ↔ k ∉ d.*1.
Proof.
  induction d as [|[k' v'] d IH]; cbn.
  - split; [intros _; apply not_elem_of_nil | done].
  - rewrite not_elem_of_cons. case_decide; [| tauto].
    split; [discriminate | tauto].
Qed.

Lemma od_get_Some_elem k v d : od_get k d = Some v → (k, v) ∈ d.
Proof.
  induction d as [|[k' v'] d IH]; cbn; [discriminate |].
  case_decide.
  - intros [= ->]. subst. apply list_elem_of_here.
  - intros H'. apply list_elem_of_further. auto.
Qed.

Lemma od_set_fresh k v d : od_get k d = None → od_set k v d = d ++ [(k, v)].
Proof.
  induction d as [|[k' v'] d IH]; cbn; [done |].
  case_decide; [discriminate |]. intros H'. by rewrite IH.
Qed.

Lemma od_set_keys k v d :
  (od_set k v d).*1 = if od_mem k d then d.*1 else d.*1 ++ [k].
Proof.
  unfold od_mem. induction d as [|[k' v'] d IH]; cbn; [done |].
  case_decide; cbn; [by subst |].
  rewrite IH. by destruct (od_get k d).
Qed.

Lemma od_set_id k v d : od_get k d = Some v → od_set k v d = d.
Proof.
  induction d as [|[k' v'] d IH]; cbn; [discriminate |].
  case_decide; [intros [= ->]; by subst |]. intros H'. by rewrite IH.
Qed.

End OrderedDictFacts.

(** ** Migration *)

Lemma str_app_nil_r s : s +:+ "" = s.
Proof. induction s as [|c s IH]; [done |]. str_simpl. by rewrite IH. Qed.

Lemma get_file_identity_idemp key :
  _get_file_identity (_get_file_identity key) = _get_file_identity key.
Proof.
  unfold _get_file_identity at 2 3.
  destruct (Re.search Re.NCT_PATTERN key) as [m|] eqn:Hs.
  - destruct (search_some _ _ _ Hs) as (i & Hp & _).
    pose proof (match_here_complete _ _ "" Hp) as Hm.
    rewrite str_app_nil_r in Hm.
    unfold _get_file_identity. destruct m; cbn [Re.search]; by rewrite Hm.
  - unfold _get_file_identity. by rewrite Hs.
Qed.

Lemma ensure_filename_has key val : is_Some (ensure_filename key val !! "filename").
Proof.
  unfold ensure_filename. destruct (val !! "filename") eqn:Hf; [by rewrite Hf |].
  rewrite lookup_insert_eq. by eexists.
Qed.

Lemma ensure_filename_id key val :
  is_Some (val !! "filename") → ensure_filename key val = val.
Proof. intros [f Hf]. unfold ensure_filename. by rewrite Hf. Qed.

Lemma migrate_step_migrated acc item : migrated acc → migrated (migrate_step acc item).
Proof.
  destruct item as [key val]. intros [Hnd Hall]. unfold migrate_step, od_mem.
  destruct (od_get (_get_file_identity key) acc) eqn:Hg; [done |].
  rewrite (od_set_fresh _ _ _ Hg). split.
  - rewrite fmap_app. apply NoDup_app. split; [done |]. split.
    + intros k Hk. cbn. rewrite list_elem_of_singleton. intros ->.
      by apply od_get_None in Hg.
    + cbn. apply NoDup_singleton.
  - apply Forall_app. split; [done |]. constructor; [| constructor].
    cbn. split; [apply get_file_identity_idemp | apply ensure_filename_has].
Qed.

Lemma fold_migrate_migrated l acc :
  migrated acc → migrated (fold_left migrate_step l acc).
Proof.
  revert acc. induction l as [|item l IH]; intros acc Hacc; cbn; [done |].
  by apply IH, migrate_step_migrated.
Qed.

Lemma migrate_migrated original_files : migrated (migrate original_files).
Proof.
  apply fold_migrate_migrated. split; [constructor | constructor].
Qed.

Lemma fold_migrate_get id l acc :
  od_get id (fold_left migrate_step l acc) =
  match od_get id acc with
  | Some v => Some v
  | None => (fun item => ensure_filename item.1 item.2) <$> first_resolving_to id l
  end.
Proof.
  revert acc. induction l as [|[key val] l IH]; intros acc; cbn.
  - by destruct (od_get id acc).
  - rewrite IH. unfold migrate_step, od_mem.
    destruct (od_get (_get_file_identity key) acc) as [v0|] eqn:Hk.
    + case_bool_decide; [| done]. subst. by rewrite Hk.
    + case_bool_decide.
      * subst. by rewrite od_get_set_eq, Hk.
      * by rewrite od_get_set_ne.
Qed.

Lemma fold_migrate_fixed l acc :
  migrated (acc ++ l) → fold_left migrate_step l acc = acc ++ l.
Proof.
  revert acc. induction l as [|[key val] l IH]; intros acc Hm; cbn [fold_left].
  - by rewrite app_nil_r.
  - assert (Hm' : migrated ((acc ++ [(key, val)]) ++ l)) by by rewrite <- app_assoc.
    destruct Hm as [Hnd Hall].
    rewrite fmap_app in Hnd. apply NoDup_app in Hnd as (_ & Hdisj & _).
    apply Forall_app in Hall as [_ Hall]. inversion Hall as [|? ? [Hid Hfn] _]; subst.
    cbn in Hid, Hfn.
    assert (Hg : od_get key acc = None).
    { apply od_get_None. intros Hin. apply (Hdisj _ Hin). cbn. apply list_elem_of_here. }
    assert (Hstep : migrate_step acc (key, val) = acc ++ [(key, val)]).
    { unfold migrate_step, od_mem. rewrite Hid, Hg.
      by rewrite (od_set_fresh _ _ _ Hg), (ensure_filename_id _ _ Hfn). }
    rewrite Hstep, (IH _ Hm'). by rewrite <- app_assoc.
Qed.

Lemma migrate_fixed d : migrated d → migrate d = d.
Proof. intros Hm. by apply (fold_migrate_fixed d []). Qed.

(** ** The remote client *)

Section ClientFacts.
Variable cfg : Config.
Variable remote : Remote.

Lemma failed_attempts_S fp id d k :
  failed_attempts fp id d (S k) = EvPost fp id :: EvSleep d :: failed_attempts fp id d k.
Proof. reflexivity. Qed.

Lemma upload_attempts_spec fp id todo :
  ∀ attempt w,
    attempt + Z.of_nat todo = RETRY_TIMES cfg →
    let r := upload_attempts cfg remote todo attempt fp id w in
    if r.1
    then ∃ k, (k < todo)%nat ∧
         (∀ i, (i < k)%nat → ok200 (upload_reply remote (w_clock w + i) fp id) = false) ∧
         ok200 (upload_reply remote (w_clock w + k) fp id) = true ∧
         w_clock r.2 = (w_clock w + S k)%nat ∧
         w_trace r.2 =
           w_trace w ++ failed_attempts fp id (RETRY_DELAY cfg) k ++ [EvPost fp id]
    else (∀ i, (i < todo)%nat → ok200 (upload_reply remote (w_clock w + i) fp id) = false) ∧
         w_clock r.2 = (w_clock w + todo)%nat ∧
         w_trace r.2 =
           w_trace w ++ failed_attempts fp id (RETRY_DELAY cfg) (todo - 1)
                     ++ (if todo is O then [] else [EvPost fp id]).
Proof.
  induction todo as [|todo IH]; intros attempt w Hinv; cbn [upload_attempts].
  - cbn. split; [lia |]. split; [lia |]. by rewrite app_nil_r.
  - destruct (ok200 (upload_reply remote (w_clock w) fp id)) eqn:Hok; cbn zeta.
    + cbn. exists 0%nat. rewrite Nat.add_0_r. repeat split; [lia | lia | done | lia].
    + set (w2 := if attempt <? RETRY_TIMES cfg - 1 then _ else _).
      assert (Hc2 : w_clock w2 = S (w_clock w)) by (unfold w2; destruct (attempt <? RETRY_TIMES cfg - 1); reflexivity).
      specialize (IH (attempt + 1) w2 ltac:(lia)). cbn zeta in IH.
      destruct (upload_attempts cfg remote todo (attempt + 1) fp id w2) as [ok w'].
      cbn [fst snd] in *. destruct ok.
      * destruct IH as (k & Hk & Hfail & Hgood & Hclock & Htrace).
        assert (Hsleep : (attempt <? RETRY_TIMES cfg - 1) = true) by (apply Z.ltb_lt; lia).
        exists (S k). rewrite Hc2 in *. split; [lia |]. split; [| split; [| split]].
        -- intros [|i] Hi; [by rewrite Nat.add_0_r |].
           replace (w_clock w + S i)%nat with (S (w_clock w) + i)%nat by lia.
           apply Hfail. lia.
        -- by replace (w_clock w + S k)%nat with (S (w_clock w) + k)%nat by lia.
        -- lia.
        -- rewrite Htrace. subst w2. rewrite Hsleep. cbn.
           unfold failed_attempts. by rewrite <- !app_assoc.
      * destruct IH as (Hfail & Hclock & Htrace). rewrite Hc2 in *.
        split; [| split].
        -- intros [|i] Hi; [by rewrite Nat.add_0_r |].
           replace (w_clock w + S i)%nat with (S (w_clock w) + i)%nat by lia.
           apply Hfail. lia.
        -- lia.
        -- rewrite Htrace. subst w2. destruct todo as [|todo]; cbn.
           ++ assert (Hsleep : (attempt <? RETRY_TIMES cfg - 1) = false)
                by (apply Z.ltb_ge; lia).
              rewrite Hsleep. cbn. by rewrite app_nil_r.
           ++ assert (Hsleep : (attempt <? RETRY_TIMES cfg - 1) = true)
                by (apply Z.ltb_lt; lia).
              rewrite Hsleep, Nat.sub_0_r. cbn. unfold failed_attempts.
              by rewrite <- !app_assoc.
Qed.

Lemma create_collection_shape name w :
  let r := create_collection remote name (tick (emit (EvGet name) w)) in
  w_trace r.2 = w_trace w ++ [EvGet name; EvCreate name] ∧
  w_clock r.2 = S (S (w_clock w)).
Proof.
  unfold create_collection.
  destruct (create_reply remote _ name) as [|st code data].
  - cbn. by rewrite <- app_assoc.
  - destruct (ok200 (Resp st code data)); [destruct data |]; cbn;
      by rewrite <- app_assoc.
Qed.

Lemma get_or_create_collection_shape name w :
  let r := get_or_create_collection remote name w in
  (w_trace r.2 = w_trace w ++ [EvGet name] ∧ w_clock r.2 = S (w_clock w)) ∨
  (w_trace r.2 = w_trace w ++ [EvGet name; EvCreate name] ∧
   w_clock r.2 = S (S (w_clock w))).
Proof.
  unfold get_or_create_collection.
  destruct (list_reply remote (w_clock w) name) as [|st code cols]; [by left |].
  destruct (ok200 (Resp st code cols)).
  - destruct (List.find _ cols); [by left |]. right. apply create_collection_shape.
  - right. apply create_collection_shape.
Qed.

End ClientFacts.



(** ** Saving the state *)

Section SaveFacts.
Import StateFile.
Variable SYNC_STATE_DB : path.
Variable json_chunks : store -> list string.

Lemma str_app_assoc (a b c : string) : (a +:+ b) +:+ c = a +:+ b +:+ c.
Proof. induction a as [|x a IH]; [done |]. str_simpl. by rewrite IH. Qed.

Lemma run_writes p chunks :
  ∀ f old, contents f !! p = Some old →
    ∃ f', run_ops (map (Write p) chunks) f = Some f' ∧
          dirs f' = dirs f ∧
          contents f' = <[p := old +:+ foldr String.append "" chunks]> (contents f).
Proof.
  induction chunks as [|c chunks IH]; intros f old Hold; cbn.
  - exists f. rewrite str_app_nil_r. by rewrite insert_id.
  - rewrite Hold.
    edestruct (IH {| dirs := dirs f; contents := <[p := old +:+ c]> (contents f) |}
                  (old +:+ c)) as (f' & Hrun & Hd & Hc).
    { cbn. apply lookup_insert_eq. }
    exists f'. split; [done |]. split; [done |].
    rewrite Hc. cbn. by rewrite insert_insert_eq, str_app_assoc.
Qed.

Lemma mkdir_dir_exists f d :
  dir_exists {| dirs := list_to_set (with_parents d) ∪ dirs f; contents := contents f |} d
  = true.
Proof.
  unfold dir_exists. cbn. destruct d as [|x d]; [done |].
  apply orb_true_iff. right. apply bool_decide_eq_true.
  apply elem_of_union_l, elem_of_list_to_set. unfold with_parents.
  apply list_elem_of_fmap. exists (length (x :: d)). split.
  - by rewrite firstn_all.
  - apply elem_of_seq. cbn. lia.
Qed.


End SaveFacts.


(** ** Grouping names *)


(** ** One file of the scan *)

Section FileFacts.
Variable cfg : Config.
Variable tree : Tree.
Variable clock : Clock.
Variable remote : Remote.

Lemma upload_attempts_events fp id todo :
  ∀ attempt w, ∃ evs,
    w_trace (upload_attempts cfg remote todo attempt fp id w).2 = w_trace w ++ evs ∧
    upload_events (RETRY_DELAY cfg) fp id evs.
Proof.
  induction todo as [|todo IH]; intros attempt w; cbn [upload_attempts].
  - exists []. split; [by rewrite app_nil_r | constructor].
  - destruct (ok200 _); cbn zeta.
    + exists [EvPost fp id]. split; [done |]. constructor; [by left | constructor].
    + destruct (attempt <? RETRY_TIMES cfg - 1).
      * destruct (IH (attempt + 1)
          (emit (EvSleep (RETRY_DELAY cfg)) (tick (emit (EvPost fp id) w))))
          as (evs & -> & Hevs).
        exists (EvPost fp id :: EvSleep (RETRY_DELAY cfg) :: evs). split.
        -- cbn. by rewrite <- !app_assoc.
        -- constructor; [by left |]. constructor; [by right | done].
      * destruct (IH (attempt + 1) (tick (emit (EvPost fp id) w))) as (evs & -> & Hevs).
        exists (EvPost fp id :: evs). split.
        -- cbn. by rewrite <- !app_assoc.
        -- constructor; [by left | done].
Qed.

Lemma resolve_collection_spec collection_name s :
  let r := resolve_collection remote collection_name s in
  files r.2 = files s ∧ added r.2 = added s ∧ modified r.2 = modified s ∧
  skipped r.2 = skipped s ∧
  ∃ revs, trace r.2 = trace s ++ revs ∧
          resolution collection_name (collection_cache s) (collection_cache r.2) revs r.1.
Proof.
  unfold resolve_collection.
  destruct (collection_cache s !! collection_name) as [id|] eqn:Hc; cbn zeta.
  - cbn. repeat split. exists []. split; [by rewrite app_nil_r |].
    left. by exists id.
  - pose proof (get_or_create_collection_shape remote collection_name (world_ s)) as Hshape.
    cbn zeta in Hshape.
    destruct (get_or_create_collection remote collection_name (world_ s)) as [cid w].
    cbn [fst snd] in *.
    assert (Hev : ∃ revs,
      w_trace w ++ [EvResolved collection_name cid] = trace s ++ revs ∧
      (revs = [EvGet collection_name; EvResolved collection_name cid] ∨
       revs = [EvGet collection_name; EvCreate collection_name;
               EvResolved collection_name cid])).
    { unfold trace. destruct Hshape as [[-> _]|[-> _]]; eexists;
        (split; [by rewrite <- app_assoc |]); [by left | by right]. }
    destruct Hev as (revs & Htr & Hrevs).
    destruct (truthy cid) eqn:Ht; cbn; repeat split;
      exists revs; (split; [done |]); right; rewrite Ht; by repeat split.
Qed.

Lemma process_file_outcome root file_path s :
  ∃ evs, trace (process_file cfg tree clock remote root file_path s) = trace s ++ evs ∧
         outcome cfg tree clock root file_path s
                 (process_file cfg tree clock remote root file_path s) evs.
Proof.
  unfold process_file.
  destruct (excluded_by_marker (name file_path)) eqn:Hm.
  { exists []. split; [by rewrite app_nil_r |]. by apply OutMarker. }
  destruct (excluded_by_date cfg clock (w_clock (world_ s)) (name file_path)) eqn:Hd.
  { exists []. split; [by rewrite app_nil_r |]. by apply OutDate. }
  cbn [files with_world].
  destruct (unchanged _ _) eqn:Hu.
  { exists [EvHash file_path]. split; [done |]. by apply OutUnchanged. }
  set (s1 := with_world (emit (EvHash file_path) (world_ s)) s).
  set (cname := collection_name_of (FASTGPT_CN_SUBDIR cfg) root file_path).
  pose proof (resolve_collection_spec cname s1) as Hres. cbn zeta in Hres.
  destruct (resolve_collection remote cname s1) as [cid s2]. cbn [fst snd] in Hres.
  destruct Hres as (Hf & Ha & Hmo & Hsk & revs & Htr & Hres).
  destruct (truthy cid) eqn:Ht; cbn [negb].
  - destruct cid as [c|]; [| discriminate].
    change (default "" (Some c)) with c.
    pose proof (upload_attempts_events file_path c (Z.to_nat (RETRY_TIMES cfg)) 0
                  (world_ s2)) as (uevs & Hup & Huevs).
    fold (upload_file cfg remote file_path c (world_ s2)) in Hup.
    destruct (upload_file cfg remote file_path c (world_ s2)) as [ok w3].
    cbn [snd] in Hup. fold (trace s2) in Hup. rewrite Htr in Hup.
    destruct ok.
    + eexists. split;
        [| eapply OutUploaded with (revs := revs) (id := c) (uevs := uevs); try done].
      * unfold trace. cbn. rewrite Hup. unfold trace. cbn.
        rewrite <- !app_assoc. cbn. reflexivity.
      * cbn. by rewrite Hf.
      * cbn. by rewrite Ha.
      * cbn. by rewrite Hmo.
    + eexists. split;
        [| eapply OutUploadFailed with (revs := revs) (id := c) (uevs := uevs); try done].
      unfold trace. cbn. rewrite Hup. unfold trace. cbn.
      rewrite <- !app_assoc. cbn. reflexivity.
  - eexists. split; [| eapply OutCollectionError with (revs := revs) (collection_id := cid); try done].
    unfold trace in *. cbn. rewrite Htr. cbn. rewrite <- !app_assoc. reflexivity.
Qed.

End FileFacts.

(** ** The whole run *)

Section RunFacts.
Variable cfg : Config.
Variable tree : Tree.
Variable clock : Clock.
Variable remote : Remote.

Lemma sync_once_scan original_files :
  sync_once cfg tree clock remote original_files =
  fold_left (fun s x => process_file cfg tree clock remote x.1 x.2 s)
            (scan_list cfg tree) (after_migration original_files).
Proof.
  unfold sync_once, scan_list.
  generalize (after_migration original_files).
  induction (LOCAL_DIRS cfg) as [|root roots IH]; intros s; cbn; [done |].
  rewrite fold_left_app, IH. f_equal. unfold scan_root.
  destruct (exists_ tree root); [| done].
  generalize (all_files tree root). intros l. revert s.
  induction l as [|f l IHl]; intros s; cbn; [done |]. by rewrite IHl.
Qed.

(** Induction over the files of a run, with the files examined so far. *)
Lemma scan_ind (P : list (path * path) → run_state → Prop) original_files :
  P [] (after_migration original_files) →
  (∀ pre root fp s,
     (∃ post, scan_list cfg tree = pre ++ (root, fp) :: post) →
     P pre s → P (pre ++ [(root, fp)]) (process_file cfg tree clock remote root fp s)) →
  P (scan_list cfg tree) (sync_once cfg tree clock remote original_files).
Proof.
  intros H0 Hstep. rewrite sync_once_scan.
  assert (Hgen : ∀ l pre s, scan_list cfg tree = pre ++ l → P pre s →
    P (pre ++ l) (fold_left (fun s x => process_file cfg tree clock remote x.1 x.2 s) l s)).
  { induction l as [|[root fp] l IH]; intros pre s Heq Hp; cbn.
    - by rewrite app_nil_r.
    - replace (pre ++ (root, fp) :: l) with ((pre ++ [(root, fp)]) ++ l)
        by by rewrite <- app_assoc.
      apply IH; [by rewrite <- app_assoc |]. apply Hstep; [by exists l | done]. }
  by apply (Hgen (scan_list cfg tree) []).
Qed.

(** Induction over the files of a run, for a property of the state alone. *)
Lemma run_ind (P : run_state → Prop) original_files :
  P (after_migration original_files) →
  (∀ root fp s, P s → P (process_file cfg tree clock remote root fp s)) →
  P (sync_once cfg tree clock remote original_files).
Proof.
  intros H0 Hstep.
  apply (scan_ind (fun _ s => P s) original_files); [done |].
  intros pre root fp s _. apply Hstep.
Qed.

End RunFacts.

(** ** Events of one file *)

Lemma resolution_events n cache cache' revs cid e :
  resolution n cache cache' revs cid → e ∈ revs →
  cache !! n = None ∧ (e = EvGet n ∨ e = EvCreate n ∨ e = EvResolved n cid).
Proof.
  intros [(id & _ & _ & -> & _)|(Hc & [->| ->] & _)] He.
  - by apply elem_of_nil in He.
  - split; [done |]. rewrite !elem_of_cons, elem_of_nil in He.
    destruct He as [->|[->|[]]]; eauto.
  - split; [done |]. rewrite !elem_of_cons, elem_of_nil in He.
    destruct He as [->|[->|[->|[]]]]; eauto.
Qed.

Lemma upload_events_elem d fp id uevs e :
  upload_events d fp id uevs → e ∈ uevs → e = EvPost fp id ∨ e = EvSleep d.
Proof. intros Hall He. by apply (proj1 (Forall_forall _ _) Hall). Qed.

(** Every event of one file is one of these. *)
Lemma outcome_events cfg tree clock root fp s s' evs e :
  outcome cfg tree clock root fp s s' evs → e ∈ evs →
  excluded_by_marker (name fp) = false ∧
  (e = EvHash fp ∨
   (∃ n cid, collection_cache s !! n = None ∧
             (e = EvGet n ∨ e = EvCreate n ∨ e = EvResolved n cid)) ∨
   (∃ id, e = EvPost fp id) ∨ (∃ d, e = EvSleep d) ∨
   (∃ ok, e = EvUploaded fp ok) ∨
   e = EvSave (files s') ∨
   (∃ n, e = EvPrintSkip (name fp) n)).
Proof.
  intros Hout He.
  destruct Hout as [? ? -> | ? ? ? -> | ? ? ? ? ->
                   | revs cid ? ? ? Hres ? ? ? ? ? ->
                   | revs id uevs ? ? ? Hres ? Hup ? ? ? ? ->
                   | revs id uevs t ? ? ? Hres ? Hup ? ? ? ? ->];
    try (by apply elem_of_nil in He); (split; [done |]).
  - apply list_elem_of_singleton in He. by left.
  - rewrite elem_of_cons, elem_of_app, list_elem_of_singleton in He.
    destruct He as [->|[He| ->]]; [by left | | by eauto 10].
    destruct (resolution_events _ _ _ _ _ _ Hres He) as [? ?]. right; left. eauto.
  - rewrite elem_of_cons, !elem_of_app, list_elem_of_singleton in He.
    destruct He as [->|[He|[He| ->]]]; [by left | | | by eauto 10].
    + destruct (resolution_events _ _ _ _ _ _ Hres He) as [? ?]. right; left. eauto.
    + destruct (upload_events_elem _ _ _ _ _ Hup He) as [-> | ->]; eauto 10.
  - rewrite elem_of_cons, !elem_of_app, !elem_of_cons, elem_of_nil in He.
    destruct He as [->|[He|[He|[->|[->|[]]]]]]; [by left | | | by eauto 10 | by eauto 10].
    + destruct (resolution_events _ _ _ _ _ _ Hres He) as [? ?]. right; left. eauto.
    + destruct (upload_events_elem _ _ _ _ _ Hup He) as [-> | ->]; eauto 10.
Qed.

(** ** The inclusion rule and the counts *)


(** C9: a file whose name lacks the marker ["-zh"] is skipped without a
    trace, whatever the filter mode: the state is left as it is, and no event
    of any run hashes or uploads such a file. *)
Theorem unmarked_file_is_never_uploaded
    (cfg : Config) (tree : Tree) (clock : Clock) (remote : Remote) :
  (∀ root file_path s,
     Str.contains "-zh" (name file_path) = false →
     process_file cfg tree clock remote root file_path s = s) ∧
  (∀ original_files file_path e,
     Str.contains "-zh" (name file_path) = false →
     e ∈ trace (sync_once cfg tree clock remote original_files) →
     touches e ≠ Some file_path).
Proof.
  split.
  - intros root fp s Hz. unfold process_file, excluded_by_marker. by rewrite Hz.
  - intros files0 fp e Hz.
    assert (Hinv : ∀ e p, e ∈ trace (sync_once cfg tree clock remote files0) →
                          touches e = Some p → excluded_by_marker (name p) = false).
    { apply (run_ind cfg tree clock remote
               (fun s => ∀ e p, e ∈ trace s → touches e = Some p →
                                excluded_by_marker (name p) = false)).
      - intros e' p He'. apply list_elem_of_singleton in He' as ->. discriminate.
      - intros root g s IH e' p.
        destruct (process_file_outcome cfg tree clock remote root g s)
          as (evs & -> & Hout).
        rewrite elem_of_app. intros [He'|He']; [by apply IH |].
        destruct (outcome_events _ _ _ _ _ _ _ _ _ Hout He') as (Hm & Hcases).
        intros Ht.
        destruct Hcases as [->|[(n & cid & _ & [->|[->| ->]])|[(id & ->)|[(d & ->)|
                           [(ok & ->)|[->|(n & ->)]]]]]]; cbn in Ht; congruence. }
    intros He Ht. specialize (Hinv e fp He Ht).
    unfold excluded_by_marker in Hinv. by rewrite Hz in Hinv.
Qed.

(** ** Migration at the start of a run *)

Lemma trace_grows cfg tree clock remote original_files :
  ∃ rest, trace (sync_once cfg tree clock remote original_files) =
          EvSave (migrate original_files) :: rest.
Proof.
  apply (run_ind cfg tree clock remote
           (fun s => ∃ rest, trace s = EvSave (migrate original_files) :: rest)).
  - by exists [].
  - intros root fp s (rest & Hrest).
    destruct (process_file_outcome cfg tree clock remote root fp s) as (evs & -> & _).
    exists (rest ++ evs). by rewrite Hrest.
Qed.

(** C4: migration re-keys every record by the identity of its old key; of
    the records whose keys resolve to one identity it keeps the first in
    iteration order; migrating a migrated store changes nothing; and every run
    saves the migrated store before it scans, whether or not a key changed. *)
Theorem migration_rekeys_first_wins_idempotent_saved :
  (∀ original_files,
     NoDup (migrate original_files).*1 ∧
     ∀ id, id ∈ (migrate original_files).*1 ↔
           ∃ key, key ∈ original_files.*1 ∧ id = _get_file_identity key) ∧
  (∀ original_files id,
     od_get id (migrate original_files) =
     (fun item => ensure_filename item.1 item.2) <$> first_resolving_to id original_files) ∧
  (∀ original_files, migrate (migrate original_files) = migrate original_files) ∧
  (∀ cfg tree clock remote original_files,
     ∃ rest, trace (sync_once cfg tree clock remote original_files) =
             EvSave (migrate original_files) :: rest).
Proof.
  assert (Hget : ∀ original_files id,
    od_get id (migrate original_files) =
    (fun item => ensure_filename item.1 item.2) <$> first_resolving_to id original_files).
  { intros. unfold migrate. by rewrite fold_migrate_get. }
  split; [| split; [done | split]].
  - intros files0. split; [apply migrate_migrated |].
    intros id. split.
    + intros Hin. destruct (od_get id (migrate files0)) as [v|] eqn:Hg.
      * rewrite Hget in Hg. unfold first_resolving_to in Hg.
        destruct (List.find _ files0) as [[key val]|] eqn:Hfind; [| discriminate].
        apply find_some in Hfind as [Hin' Hid]. apply bool_decide_eq_true in Hid.
        exists key. split; [| done].
        apply list_elem_of_fmap. exists (key, val). split; [done |].
        by apply list_elem_of_In.
      * by apply od_get_None in Hg.
    + intros (key & Hkey & ->).
      destruct (od_get (_get_file_identity key) (migrate files0)) as [v|] eqn:Hg.
      * apply od_get_Some_elem in Hg. apply list_elem_of_fmap. by exists (_get_file_identity key, v).
      * exfalso. rewrite Hget in Hg. unfold first_resolving_to in Hg.
        destruct (List.find _ files0) as [item|] eqn:Hfind; [discriminate |].
        apply list_elem_of_fmap in Hkey as ([key' val] & -> & Hitem).
        apply list_elem_of_In in Hitem.
        pose proof (find_none _ _ Hfind _ Hitem) as Hnone. cbn in Hnone.
        by apply bool_decide_eq_false in Hnone.
  - intros files0. apply migrate_fixed, migrate_migrated.
  - apply trace_grows.
Qed.

Lemma new_record_hash filename file_hash upload_time collection_id source_path :
  new_record filename file_hash upload_time collection_id source_path !! "hash"
  = Some file_hash.
Proof.
  unfold new_record. do 3 (rewrite lookup_insert_ne by done). apply lookup_insert_eq.
Qed.

Lemma new_record_filename filename file_hash upload_time collection_id source_path :
  new_record filename file_hash upload_time collection_id source_path !! "filename"
  = Some filename.
Proof.
  unfold new_record. do 4 (rewrite lookup_insert_ne by done). apply lookup_insert_eq.
Qed.

(** ** Failed uploads *)

(** C2: when the upload of a file fails, its processing leaves the records
    and the counts of added and modified files as they were and saves
    nothing; and the records change only by the record of this file's
    identity being set to this file's fingerprint, with the successful upload
    and the save as the last two events. *)
Theorem failed_upload_leaves_record_untouched
    (cfg : Config) (tree : Tree) (clock : Clock) (remote : Remote)
    (root file_path : path) (s : run_state) :
  let s' := process_file cfg tree clock remote root file_path s in
  ∃ evs, trace s' = trace s ++ evs ∧
    (EvUploaded file_path false ∈ evs →
     files s' = files s ∧ added s' = added s ∧ modified s' = modified s ∧
     ∀ saved, EvSave saved ∉ evs) ∧
    (files s' ≠ files s →
     ∃ before r,
       evs = before ++ [EvUploaded file_path true; EvSave (files s')] ∧
       files s' = od_set (_get_file_identity (name file_path)) r (files s) ∧
       r !! "hash" = Some (md5_hexdigest tree file_path)).
Proof.
  cbn zeta.
  destruct (process_file_outcome cfg tree clock remote root file_path s)
    as (evs & Htr & Hout).
  exists evs. split; [done |].
  destruct Hout as [Hm -> -> | Hm Hd -> -> | Hm Hd Hu -> ->
                   | revs cid Hm Hd Hu Hres Ht Hf Ha Hmo Hs ->
                   | revs id uevs Hm Hd Hu Hres Ht Hup Hf Ha Hmo Hs ->
                   | revs id uevs t Hm Hd Hu Hres Ht Hup Hf Ha Hmo Hs ->].
  - split; [intros He; by apply elem_of_nil in He | done].
  - split; [intros He; by apply elem_of_nil in He | done].
  - split; [| done]. intros He. apply list_elem_of_singleton in He. discriminate.
  - split; [| done]. intros He. exfalso.
    rewrite elem_of_cons, elem_of_app, list_elem_of_singleton in He.
    destruct He as [?|[He|?]]; [done | | done].
    destruct (resolution_events _ _ _ _ _ _ Hres He) as (_ & [?|[?|?]]); done.
  - split; [| done]. intros _. repeat split; [done.. |].
    intros saved He.
    rewrite elem_of_cons, !elem_of_app, list_elem_of_singleton in He.
    destruct He as [?|[He|[He|?]]]; [done | | | done].
    + destruct (resolution_events _ _ _ _ _ _ Hres He) as (_ & [?|[?|?]]); done.
    + destruct (upload_events_elem _ _ _ _ _ Hup He); done.
  - split.
    + intros He. exfalso.
      rewrite elem_of_cons, !elem_of_app, !elem_of_cons, elem_of_nil in He.
      destruct He as [?|[He|[He|[?|[?|[]]]]]]; [done | | | done | done].
      * destruct (resolution_events _ _ _ _ _ _ Hres He) as (_ & [?|[?|?]]); done.
      * destruct (upload_events_elem _ _ _ _ _ Hup He); done.
    + intros _. eexists (EvHash file_path :: revs ++ uevs), _.
      split; [| split; [exact Hf |]].
      * cbn. by rewrite <- app_assoc.
      * apply new_record_hash.
Qed.

(** ** Collection resolution within a run *)

Lemma elem_of_resolved_names n t :
  n ∈ resolved_names t ↔ ∃ e, e ∈ t ∧ resolves e = Some n.
Proof. unfold resolved_names. by rewrite elem_of_list_to_set, list_elem_of_omap. Qed.

Lemma once_mono seen seen' t :
  (∀ n, n ∈ seen' → n ∈ seen) → once seen t → once seen' t.
Proof.
  revert seen seen'. induction t as [|e t IH]; intros seen seen' Hsub; cbn; [done |].
  intros [Hreq Ht]. split.
  - intros n Hn Hin. by apply (Hreq n Hn), Hsub.
  - revert Ht. apply IH. intros n.
    destruct (resolves e); [| by apply Hsub].
    rewrite !elem_of_union. intros [?|?]; [by left | right; by apply Hsub].
Qed.

Lemma once_app seen t evs :
  once seen t →
  once (seen ∪ resolved_names t) evs →
  once seen (t ++ evs).
Proof.
  revert seen. induction t as [|e t IH]; intros seen; cbn [once app].
  - intros _. apply once_mono. intros n Hn. apply elem_of_union. by left.
  - intros [Hreq Ht] Hevs. split; [done |]. apply IH; [done |].
    revert Hevs. apply once_mono. intros n.
    rewrite !elem_of_union, !elem_of_resolved_names.
    intros [Hn|(e' & He' & Hres)].
    + destruct (resolves e) as [m|] eqn:Hm.
      * apply elem_of_union in Hn as [Hn|Hn]; [| by left].
        apply elem_of_singleton in Hn as ->. right. exists e.
        split; [apply list_elem_of_here | done].
      * by left.
    + right. exists e'. split; [by apply list_elem_of_further | done].
Qed.

Lemma once_split seen t1 e t2 n :
  once seen (t1 ++ e :: t2) → requests e = Some n →
  (n ∉ seen) ∧ (∀ e', e' ∈ t1 → resolves e' ≠ Some n).
Proof.
  revert seen. induction t1 as [|e0 t1 IH]; intros seen; cbn.
  - intros [Hreq _] Hn. split; [by apply Hreq |].
    intros e' He'. by apply elem_of_nil in He'.
  - intros [_ Ht] Hn. destruct (IH _ Ht Hn) as [Hnot Hall]. split.
    + intros Hin. apply Hnot. destruct (resolves e0); [| done].
      apply elem_of_union. by right.
    + intros e' He'. apply elem_of_cons in He' as [->|He']; [| by apply Hall].
      intros Hres. apply Hnot. rewrite Hres. apply elem_of_union. left.
      by apply elem_of_singleton.
Qed.

Lemma once_quiet seen t :
  Forall (fun e => requests e = None) t → once seen t.
Proof.
  revert seen. induction t as [|e t IH]; intros seen Hall; cbn; [done |].
  inversion Hall as [|? ? He Ht]; subst. split; [by rewrite He |].
  assert (resolves e = None) as -> by (destruct e; cbn in *; congruence).
  by apply IH.
Qed.

Lemma upload_events_quiet d fp id uevs tail :
  upload_events d fp id uevs → Forall (fun e => requests e = None) tail →
  Forall (fun e => requests e = None) (uevs ++ tail).
Proof.
  intros Hup Htail. apply Forall_app. split; [| done].
  eapply Forall_impl; [exact Hup |]. by intros e [-> | ->].
Qed.

(** The resolution events of one file, followed by events that ask nothing:
    nothing is asked about a name the cache holds, and a resolved name enters
    the cache. *)
Lemma resolution_once n cache cache' revs cid tail :
  resolution n cache cache' revs cid →
  Forall (fun e => requests e = None) tail →
  once (dom cache) (revs ++ tail) ∧
  (∀ m, m ∈ resolved_names (revs ++ tail) → m ∈ dom cache') ∧
  (∀ m, m ∈ dom cache → m ∈ dom cache').
Proof.
  intros Hres Htail.
  assert (Hq : ∀ m, m ∉ resolved_names tail).
  { intros m (e & He & Hr)%elem_of_resolved_names.
    pose proof (proj1 (Forall_forall _ _) Htail e He) as Hreq.
    destruct e; cbn in *; congruence. }
  destruct Hres as [(id & Hc & -> & -> & ->)|(Hc & Hrevs & ->)].
  - cbn. split; [by apply once_quiet |]. split; [| done].
    intros m Hm. by destruct (Hq m).
  - apply not_elem_of_dom in Hc.
    assert (Hdom : ∀ m, m ∈ dom cache →
              m ∈ dom (if truthy cid then <[n:=default "" cid]> cache else cache)).
    { intros m Hm. destruct (truthy cid); [| done].
      rewrite dom_insert_L. apply elem_of_union. by right. }
    assert (Hnew : ∀ m, resolves (EvResolved n cid) = Some m →
              m ∈ dom (if truthy cid then <[n:=default "" cid]> cache else cache)).
    { intros m. cbn. destruct (truthy cid); [| discriminate]. intros [= ->].
      rewrite dom_insert_L. apply elem_of_union. left. by apply elem_of_singleton. }
    split; [| split; [| done]].
    + destruct Hrevs as [-> | ->]; cbn; repeat split;
        try (by intros m [= <-]); by apply once_quiet.
    + intros m (e & He & Hr)%elem_of_resolved_names.
      apply elem_of_app in He as [He|He].
      * destruct Hrevs as [-> | ->];
          rewrite !elem_of_cons, elem_of_nil in He;
          repeat (destruct He as [->|He]; [first [discriminate Hr | by apply Hnew] |]);
          destruct He.
      * destruct (Hq m). apply elem_of_resolved_names. by exists e.
Qed.

Lemma outcome_once cfg tree clock root fp s s' evs :
  outcome cfg tree clock root fp s s' evs →
  once (dom (collection_cache s)) evs ∧
  (∀ m, m ∈ resolved_names evs → m ∈ dom (collection_cache s')) ∧
  (∀ m, m ∈ dom (collection_cache s) → m ∈ dom (collection_cache s')).
Proof.
  assert (Hnil : ∀ m, m ∉ resolved_names []).
  { intros m (e & He & _)%elem_of_resolved_names. by apply elem_of_nil in He. }
  assert (Hhash : ∀ seen t (c' : gmap string string),
    once seen t ∧ (∀ m, m ∈ resolved_names t → m ∈ dom c') ∧
      (∀ m, m ∈ seen → m ∈ dom c') →
    once seen (EvHash fp :: t) ∧ (∀ m, m ∈ resolved_names (EvHash fp :: t) → m ∈ dom c') ∧
      (∀ m, m ∈ seen → m ∈ dom c')).
  { intros seen t c' (H1 & H2 & H3). split; [by split |]. split; [| done].
    intros m (e & He & Hr)%elem_of_resolved_names.
    apply elem_of_cons in He as [->|He]; [discriminate |].
    apply H2, elem_of_resolved_names. by exists e. }
  intros [? -> -> | ? ? -> -> | ? ? ? -> ->
         | revs cid ? ? ? Hres ? ? ? ? ? ->
         | revs id uevs ? ? ? Hres ? Hup ? ? ? ? ->
         | revs id uevs t ? ? ? Hres ? Hup ? ? ? ? ->].
  - split; [done |]. split; [| done]. intros m Hm. by destruct (Hnil m).
  - split; [done |]. split; [| done]. intros m Hm. by destruct (Hnil m).
  - apply Hhash. split; [done |]. split; [| done]. intros m Hm. by destruct (Hnil m).
  - apply Hhash, (resolution_once _ _ _ _ _ _ Hres). by repeat constructor.
  - apply Hhash, (resolution_once _ _ _ _ _ _ Hres).
    apply (upload_events_quiet _ _ _ _ _ Hup). by repeat constructor.
  - apply Hhash, (resolution_once _ _ _ _ _ _ Hres).
    apply (upload_events_quiet _ _ _ _ _ Hup). by repeat constructor.
Qed.

Lemma run_resolves_once cfg tree clock remote original_files :
  once ∅ (trace (sync_once cfg tree clock remote original_files)).
Proof.
  apply (run_ind cfg tree clock remote
    (fun s => once ∅ (trace s) ∧
              ∀ m, m ∈ resolved_names (trace s) → m ∈ dom (collection_cache s))).
  - split; [by split |].
    intros m (e & He & Hr)%elem_of_resolved_names.
    apply list_elem_of_singleton in He as ->. discriminate.
  - intros root fp s [Honce Hdom].
    destruct (process_file_outcome cfg tree clock remote root fp s) as (evs & -> & Hout).
    destruct (outcome_once _ _ _ _ _ _ _ _ Hout) as (Hevs & Hnew & Hold).
    split.
    + apply once_app; [done |]. revert Hevs. apply once_mono.
      intros m [Hm|Hm]%elem_of_union; [by apply elem_of_empty in Hm | by apply Hdom].
    + intros m (e & He & Hr)%elem_of_resolved_names.
      apply elem_of_app in He as [He|He].
      * apply Hold, Hdom, elem_of_resolved_names. by exists e.
      * apply Hnew, elem_of_resolved_names. by exists e.
Qed.

(** C7, as the code has it: a file whose grouping name cannot be resolved is
    skipped and reported, with records and counts left as they were and no
    upload; and once a grouping name has been resolved to an ID, no later
    event of the run asks the remote service about that name. A failed
    resolution is not remembered. *)
Theorem collection_resolved_once_when_it_succeeds
    (cfg : Config) (tree : Tree) (clock : Clock) (remote : Remote) :
  (∀ root file_path s evs collection_id,
     let s' := process_file cfg tree clock remote root file_path s in
     let collection_name := collection_name_of (FASTGPT_CN_SUBDIR cfg) root file_path in
     trace s' = trace s ++ evs →
     EvResolved collection_name collection_id ∈ evs →
     truthy collection_id = false →
     files s' = files s ∧ added s' = added s ∧ modified s' = modified s ∧
     skipped s' = skipped s ∧
     EvPrintSkip (name file_path) collection_name ∈ evs ∧
     ∀ id ok, (EvPost file_path id ∉ evs) ∧ (EvUploaded file_path ok ∉ evs)) ∧
  (∀ original_files t1 e t2 n,
     trace (sync_once cfg tree clock remote original_files) = t1 ++ e :: t2 →
     requests e = Some n →
     ∀ e', e' ∈ t1 → resolves e' ≠ Some n).
Proof.
  split.
  - intros root fp s evs cid. cbn zeta. intros Htr He Hfalse.
    destruct (process_file_outcome cfg tree clock remote root fp s) as (evs' & Htr' & Hout).
    rewrite Htr' in Htr. apply app_inv_head in Htr as <-.
    destruct (outcome_events _ _ _ _ _ _ _ _ _ Hout He) as [_ Hcases].
    destruct Hout as [? ? -> | ? ? ? -> | ? ? ? ? ->
                     | revs cid' ? ? ? Hres ? ? ? ? ? ->
                     | revs id uevs ? ? ? Hres Ht Hup ? ? ? ? ->
                     | revs id uevs t ? ? ? Hres Ht Hup ? ? ? ? ->].
    + by apply elem_of_nil in He.
    + by apply elem_of_nil in He.
    + apply list_elem_of_singleton in He. discriminate.
    + repeat split; try done.
      * apply elem_of_cons. right. apply elem_of_app. right. apply list_elem_of_here.
      * intros Hin. rewrite elem_of_cons, elem_of_app, list_elem_of_singleton in Hin.
        destruct Hin as [?|[Hin|?]]; [done | | done].
        destruct (resolution_events _ _ _ _ _ _ Hres Hin) as (_ & [?|[?|?]]); done.
      * intros Hin. rewrite elem_of_cons, elem_of_app, list_elem_of_singleton in Hin.
        destruct Hin as [?|[Hin|?]]; [done | | done].
        destruct (resolution_events _ _ _ _ _ _ Hres Hin) as (_ & [?|[?|?]]); done.
    + exfalso. rewrite elem_of_cons, !elem_of_app, list_elem_of_singleton in He.
      destruct He as [?|[He|[He|?]]]; [done | | | done].
      * destruct (resolution_events _ _ _ _ _ _ Hres He) as (_ & [?|[?|Heq]]);
          [done | done |]. injection Heq as ->. congruence.
      * destruct (upload_events_elem _ _ _ _ _ Hup He); done.
    + exfalso. rewrite elem_of_cons, !elem_of_app, !elem_of_cons, elem_of_nil in He.
      destruct He as [?|[He|[He|[?|[?|[]]]]]]; [done | | | done | done].
      * destruct (resolution_events _ _ _ _ _ _ Hres He) as (_ & [?|[?|Heq]]);
          [done | done |]. injection Heq as ->. congruence.
      * destruct (upload_events_elem _ _ _ _ _ Hup He); done.
  - intros files0 t1 e t2 n Htr Hreq.
    pose proof (run_resolves_once cfg tree clock remote files0) as Honce.
    rewrite Htr in Honce. by destruct (once_split _ _ _ _ _ Honce Hreq).
Qed.

(** C7, as stated, fails: when the service refuses to create the collection
    ["history"], each of the two archived files triggers its own resolution
    call, while the third file is uploaded. *)
Lemma failed_resolution_is_repeated_per_file :
  resolution_calls "history"
    (trace (sync_once Scenario.cfg_all Scenario.tree_history Scenario.clock0
              Scenario.remote_no_history [])) = 2%nat ∧
  added (sync_once Scenario.cfg_all Scenario.tree_history Scenario.clock0
           Scenario.remote_no_history []) = 1%nat.
Proof. by vm_compute. Qed.

(** ** Running twice *)

Lemma synced_unchanged tree state_files fp :
  synced tree state_files fp ↔
  unchanged (od_get (_get_file_identity (name fp)) state_files)
            (md5_hexdigest tree fp) = true.
Proof.
  unfold synced, unchanged, record_truthy. split.
  - intros (r & -> & Hh). apply andb_true_iff. split.
    + apply negb_true_iff, bool_decide_eq_false. intros ->.
      by rewrite lookup_empty in Hh.
    + by apply bool_decide_eq_true.
  - destruct (od_get _ state_files) as [r|]; [| by rewrite andb_false_r].
    intros [_ Hh%bool_decide_eq_true]%andb_true_iff. by exists r.
Qed.

Lemma eligible_iff cfg clock today now fp :
  (∀ n, today_str clock n = today) →
  eligible cfg today fp ↔
  excluded_by_marker (name fp) = false ∧
  excluded_by_date cfg clock now (name fp) = false.
Proof.
  intros Hd. unfold eligible, excluded_by_date. rewrite Hd.
  destruct (UPLOAD_FILTER_MODE cfg).
  - rewrite negb_false_iff. split; [intros [? [?|?]]; done | intros [? ?]; by split; [| right]].
  - split; [intros [? _]; done | intros [? _]; split; [done | by left]].
Qed.

Lemma Forall_od_set {V} (P : string * V → Prop) k v (d : list (string * V)) :
  Forall P d → P (k, v) → Forall P (od_set k v d).
Proof.
  intros Hd Hk. induction Hd as [|[k' v'] d Hx Hd IH]; cbn.
  - by constructor.
  - case_decide; constructor; done.
Qed.

Lemma migrated_od_set d k r :
  migrated d → _get_file_identity k = k → is_Some (r !! "filename") →
  migrated (od_set k r d).
Proof.
  intros [Hnd Hall] Hk Hr. split.
  - rewrite od_set_keys. unfold od_mem.
    destruct (od_get k d) eqn:Hg; [done |].
    apply NoDup_app. split; [done |]. split; [| apply NoDup_singleton].
    intros x Hx ->%list_elem_of_singleton. by apply od_get_None in Hg.
  - by apply Forall_od_set.
Qed.

Lemma successful_app t evs :
  successful (t ++ evs) ↔ successful t ∧ successful evs.
Proof. unfold successful. rewrite forallb_app. apply andb_true_iff. Qed.

Lemma successful_elem t e : successful t → e ∈ t → failure_event e = false.
Proof.
  unfold successful. rewrite forallb_forall. intros Hall He.
  apply negb_true_iff, Hall. by apply list_elem_of_In.
Qed.

(** A resolution keeps the IDs in the cache non-empty, and when it yields
    no ID it leaves a failure event. *)
Lemma resolution_cache_ok n (cache cache' : gmap string string) revs cid :
  resolution n cache cache' revs cid →
  (∀ m id, cache !! m = Some id → id ≠ "") →
  (∀ m id, cache' !! m = Some id → id ≠ "") ∧
  (truthy cid = false → ∃ e, e ∈ revs ∧ failure_event e = true).
Proof.
  intros [(id & Hc & -> & -> & ->)|(Hc & Hrevs & ->)] Hok.
  - split; [done |]. cbn. intros Hf. exfalso.
    apply negb_false_iff, bool_decide_eq_true in Hf. by apply (Hok n id).
  - split.
    + destruct cid as [c|]; cbn; [| done].
      case_bool_decide as Hc'; cbn; [done |].
      intros m id. rewrite lookup_insert. case_decide; [| by apply Hok].
      by intros [= <-].
    + intros Hf. exists (EvResolved n cid). split.
      * destruct Hrevs as [-> | ->]; rewrite !elem_of_cons; tauto.
      * cbn. by rewrite Hf.
Qed.

Section TwoRuns.
Variable cfg : Config.
Variable tree : Tree.
Variable today : string.

(** Files that share an identity have the same fingerprint. *)
Hypothesis same_identity_same_digest :
  ∀ r1 f1 r2 f2,
    (r1, f1) ∈ scan_list cfg tree → (r2, f2) ∈ scan_list cfg tree →
    eligible cfg today f1 → eligible cfg today f2 →
    _get_file_identity (name f1) = _get_file_identity (name f2) →
    md5_hexdigest tree f1 = md5_hexdigest tree f2.

Lemma successful_run_syncs clock remote original_files :
  (∀ n, today_str clock n = today) →
  let run := sync_once cfg tree clock remote original_files in
  migrated (files run) ∧
  (successful (trace run) →
   ∀ root f, (root, f) ∈ scan_list cfg tree → eligible cfg today f →
             synced tree (files run) f).
Proof.
  intros Hd run.
  cut (migrated (files run) ∧
       (∀ m id, collection_cache run !! m = Some id → id ≠ "") ∧
       (successful (trace run) →
        ∀ root f, (root, f) ∈ scan_list cfg tree → eligible cfg today f →
                  synced tree (files run) f)); [tauto |].
  subst run.
  apply (scan_ind cfg tree clock remote
    (fun pre s =>
       migrated (files s) ∧
       (∀ m id, collection_cache s !! m = Some id → id ≠ "") ∧
       (successful (trace s) →
        ∀ root f, (root, f) ∈ pre → eligible cfg today f → synced tree (files s) f))).
  { split; [apply migrate_migrated |]. split; [done |].
    intros _ root f Hin. by apply elem_of_nil in Hin. }
  intros pre root fp s (post & Hscan) (Hmig & Hcache & IH).
  destruct (process_file_outcome cfg tree clock remote root fp s) as (evs & Htr & Hout).
  rewrite Htr.
  assert (Hpre : ∀ x, x ∈ pre → x ∈ scan_list cfg tree).
  { intros x Hx. rewrite Hscan. apply elem_of_app. by left. }
  assert (Hfp : (root, fp) ∈ scan_list cfg tree).
  { rewrite Hscan. apply elem_of_app. right. apply list_elem_of_here. }
  destruct Hout as [Hm -> -> | Hm Hdt -> -> | Hm Hdt Hu -> ->
                   | revs cid Hm Hdt Hu Hres Ht Hf Ha Hmo Hs ->
                   | revs id uevs Hm Hdt Hu Hres Ht Hup Hf Ha Hmo Hs ->
                   | revs id uevs t Hm Hdt Hu Hres Ht Hup Hf Ha Hmo Hs ->].
  - split; [done |]. split; [done |]. rewrite app_nil_r. intros Hsucc root' f.
    rewrite elem_of_app, list_elem_of_singleton. intros [Hin|[= -> ->]] Hel.
    + by apply (IH Hsucc root').
    + apply (eligible_iff cfg clock today (w_clock (world_ s))) in Hel as [? ?];
        [congruence | done].
  - split; [done |]. split; [done |]. rewrite app_nil_r. intros Hsucc root' f.
    rewrite elem_of_app, list_elem_of_singleton. intros [Hin|[= -> ->]] Hel.
    + by apply (IH Hsucc root').
    + apply (eligible_iff cfg clock today (w_clock (world_ s))) in Hel as [? ?];
        [congruence | done].
  - split; [done |]. split; [done |].
    intros [Hsucc _]%successful_app root' f.
    rewrite elem_of_app, list_elem_of_singleton. intros [Hin|[= -> ->]] Hel.
    + by apply (IH Hsucc root').
    + by apply synced_unchanged.
  - destruct (resolution_cache_ok _ _ _ _ _ Hres Hcache) as [Hcache' Hfail].
    rewrite Hf. split; [done |]. split; [done |].
    intros [Hsucc Hevs]%successful_app. exfalso.
    destruct (Hfail Ht) as (e & He & Hfe).
    assert (failure_event e = false); [| congruence].
    apply (successful_elem _ _ Hevs). apply elem_of_cons. right.
    apply elem_of_app. by left.
  - destruct (resolution_cache_ok _ _ _ _ _ Hres Hcache) as [Hcache' _].
    rewrite Hf. split; [done |]. split; [done |].
    intros [Hsucc Hevs]%successful_app. exfalso.
    assert (failure_event (EvUploaded fp false) = false); [| done].
    apply (successful_elem _ _ Hevs). apply elem_of_cons. right.
    rewrite !elem_of_app. right. right. apply list_elem_of_here.
  - destruct (resolution_cache_ok _ _ _ _ _ Hres Hcache) as [Hcache' _].
    rewrite Hf. split; [| split; [done |]].
    + apply migrated_od_set; [done | apply get_file_identity_idemp |].
      rewrite new_record_filename. by eexists.
    + intros [Hsucc Hevs]%successful_app root' f Hin Hel.
      assert (Hel' : eligible cfg today fp).
      { by apply (eligible_iff cfg clock today (w_clock (world_ s))). }
      assert (Hin' : (root', f) ∈ scan_list cfg tree).
      { apply elem_of_app in Hin as [Hin|Hin]; [by apply Hpre |].
        by apply list_elem_of_singleton in Hin as ->. }
      destruct (decide (_get_file_identity (name f) = _get_file_identity (name fp)))
        as [Heq|Hne].
      * eexists. rewrite Heq, od_get_set_eq. split; [done |].
        rewrite new_record_hash. f_equal. symmetry.
        by apply (same_identity_same_digest root' f root fp).
      * apply elem_of_app in Hin as [Hin|Hin].
        -- destruct (IH Hsucc root' f Hin Hel) as (r & Hg & Hh).
           exists r. by rewrite od_get_set_ne.
        -- apply list_elem_of_singleton in Hin. congruence.
Qed.

Lemma synced_run_uploads_nothing clock remote state_files :
  (∀ n, today_str clock n = today) →
  migrated state_files →
  (∀ root f, (root, f) ∈ scan_list cfg tree → eligible cfg today f →
             synced tree state_files f) →
  let run := sync_once cfg tree clock remote state_files in
  added run = 0%nat ∧ modified run = 0%nat ∧ files run = state_files ∧
  ∀ e, e ∈ trace run → e = EvSave state_files ∨ ∃ p, e = EvHash p.
Proof.
  intros Hd Hmig Hsync run. subst run.
  apply (scan_ind cfg tree clock remote
    (fun _ s =>
       added s = 0%nat ∧ modified s = 0%nat ∧ files s = state_files ∧
       ∀ e, e ∈ trace s → e = EvSave state_files ∨ ∃ p, e = EvHash p)).
  { unfold after_migration. rewrite (migrate_fixed _ Hmig). cbn.
    repeat split. intros e ->%list_elem_of_singleton. by left. }
  intros pre root fp s (post & Hscan) (Ha0 & Hm0 & Hf0 & Hev).
  assert (Hfp : (root, fp) ∈ scan_list cfg tree).
  { rewrite Hscan. apply elem_of_app. right. apply list_elem_of_here. }
  destruct (process_file_outcome cfg tree clock remote root fp s) as (evs & Htr & Hout).
  rewrite Htr.
  assert (Hno : excluded_by_marker (name fp) = false →
                excluded_by_date cfg clock (w_clock (world_ s)) (name fp) = false →
                unchanged (od_get (_get_file_identity (name fp)) (files s))
                          (md5_hexdigest tree fp) = false → False).
  { intros Hm Hdt Hu. rewrite Hf0 in Hu.
    assert (Hel : eligible cfg today fp).
    { by apply (eligible_iff cfg clock today (w_clock (world_ s))). }
    apply (Hsync root fp Hfp), synced_unchanged in Hel. congruence. }
  destruct Hout as [Hm -> -> | Hm Hdt -> -> | Hm Hdt Hu -> ->
                   | revs cid Hm Hdt Hu _ _ _ _ _ _ _
                   | revs id uevs Hm Hdt Hu _ _ _ _ _ _ _ _
                   | revs id uevs t Hm Hdt Hu _ _ _ _ _ _ _ _];
    try (by destruct (Hno Hm Hdt Hu)).
  - rewrite app_nil_r. done.
  - rewrite app_nil_r. done.
  - cbn. repeat split; try done.
    intros e [He| ->%list_elem_of_singleton]%elem_of_app; [by apply Hev | eauto].
Qed.

End TwoRuns.

(** C1, as the code has it: an eligible file whose identity has a record
    holding the file's current fingerprint is skipped, with only [skipped]
    incremented, no upload and no change of the records; and after a run in
    which no resolution and no upload failed, a second run over the same tree
    on the same day adds and modifies nothing, provided that eligible files
    sharing an identity have the same content. *)
Theorem rerun_uploads_nothing (cfg : Config) (tree : Tree) :
  (∀ clock remote root file_path s,
     excluded_by_marker (name file_path) = false →
     excluded_by_date cfg clock (w_clock (world_ s)) (name file_path) = false →
     synced tree (files s) file_path →
     process_file cfg tree clock remote root file_path s =
     incr_skipped (with_world (emit (EvHash file_path) (world_ s)) s)) ∧
  (∀ today clock1 clock2 remote1 remote2 original_files,
     (∀ n, today_str clock1 n = today) →
     (∀ n, today_str clock2 n = today) →
     (∀ r1 f1 r2 f2,
        (r1, f1) ∈ scan_list cfg tree → (r2, f2) ∈ scan_list cfg tree →
        eligible cfg today f1 → eligible cfg today f2 →
        _get_file_identity (name f1) = _get_file_identity (name f2) →
        md5_hexdigest tree f1 = md5_hexdigest tree f2) →
     let run1 := sync_once cfg tree clock1 remote1 original_files in
     successful (trace run1) →
     let run2 := sync_once cfg tree clock2 remote2 (files run1) in
     added run2 = 0%nat ∧ modified run2 = 0%nat ∧ files run2 = files run1 ∧
     ∀ e, e ∈ trace run2 → e = EvSave (files run1) ∨ ∃ p, e = EvHash p).
Proof.
  split.
  - intros clock remote root fp s Hm Hd Hs. unfold process_file.
    rewrite Hm, Hd. cbn [files with_world].
    apply synced_unchanged in Hs. by rewrite Hs.
  - intros today clock1 clock2 remote1 remote2 files0 Hd1 Hd2 Hsame run1 Hsucc run2.
    destruct (successful_run_syncs cfg tree today Hsame clock1 remote1 files0 Hd1)
      as [Hmig Hsync].
    apply (synced_run_uploads_nothing cfg tree today clock2 remote2 (files run1));
      [done | done |].
    intros root f. by apply Hsync.
Qed.

(** The example of the design document: one file, uploaded by the first run,
    is skipped by the second. *)
Lemma rerun_uploads_nothing_witness :
  successful (trace (sync_once Scenario.cfg_today Scenario.tree_one Scenario.clock0
                       Scenario.remote_ok [])) ∧
  added (sync_once Scenario.cfg_today Scenario.tree_one Scenario.clock0 Scenario.remote_ok
           (files (sync_once Scenario.cfg_today Scenario.tree_one Scenario.clock0
                     Scenario.remote_ok []))) = 0%nat ∧
  modified (sync_once Scenario.cfg_today Scenario.tree_one Scenario.clock0 Scenario.remote_ok
              (files (sync_once Scenario.cfg_today Scenario.tree_one Scenario.clock0
                        Scenario.remote_ok []))) = 0%nat.
Proof.
  assert (Hsucc : successful (trace (sync_once Scenario.cfg_today Scenario.tree_one
                                       Scenario.clock0 Scenario.remote_ok []))).
  { vm_compute. reflexivity. }
  split; [exact Hsucc |].
  destruct (proj2 (rerun_uploads_nothing Scenario.cfg_today Scenario.tree_one)
              "2025-01-01" Scenario.clock0 Scenario.clock0
              Scenario.remote_ok Scenario.remote_ok []) as (Ha & Hm & _).
  - reflexivity.
  - reflexivity.
  - intros r1 f1 r2 f2 H1 H2 _ _ _.
    apply list_elem_of_singleton in H1. apply list_elem_of_singleton in H2.
    congruence.
  - exact Hsucc.
  - split; [exact Ha | exact Hm].
Defined.

(** C1, as stated, fails when two eligible files share an identity and
    differ in content: after a first run without failure, the second run over
    the same tree uploads both again. *)
Lemma rerun_uploads_variants_again :
  successful (trace (sync_once Scenario.cfg_all Scenario.tree_variants Scenario.clock0
                       Scenario.remote_ok [])) ∧
  modified (sync_once Scenario.cfg_all Scenario.tree_variants Scenario.clock0
              Scenario.remote_ok
              (files (sync_once Scenario.cfg_all Scenario.tree_variants Scenario.clock0
                        Scenario.remote_ok []))) = 2%nat.
Proof. by vm_compute. Qed.

(** ** The theorems at concrete inputs *)

Lemma has_token_search s : has_token s ↔ Re.search Re.NCT_PATTERN s ≠ None.
Proof.
  split.
  - intros (t & i & Ht & pre & post & Heq & _) Hs.
    apply matches_token in Ht. by apply (search_none _ _ Hs pre t post).
  - destruct (Re.search Re.NCT_PATTERN s) as [m|] eqn:Hs; [| done]. intros _.
    destruct (search_some _ _ _ Hs) as (i & Hp & Hocc & _).
    exists m, i. by rewrite <- matches_token.
Qed.


(** A file without the marker leaves the state of a run as it is. *)
Lemma unmarked_file_witness :
  process_file Scenario.cfg_all Scenario.tree_one Scenario.clock0 Scenario.remote_ok
    ["output"] ["output"; "trials"; "NCT01234567.md"] (after_migration [])
  = after_migration [].
Proof.
  apply (proj1 (unmarked_file_is_never_uploaded Scenario.cfg_all Scenario.tree_one
                  Scenario.clock0 Scenario.remote_ok)).
  vm_compute. reflexivity.
Defined.


(** With a service that refuses every upload, the file of the design's
    example leaves the records and the counts as they were. *)
Lemma failed_upload_witness :
  files (process_file Scenario.cfg_all Scenario.tree_one Scenario.clock0
           Scenario.remote_no_upload ["output"] Scenario.doc_file (after_migration []))
  = files (after_migration []) ∧
  added (process_file Scenario.cfg_all Scenario.tree_one Scenario.clock0
           Scenario.remote_no_upload ["output"] Scenario.doc_file (after_migration []))
  = 0%nat.
Proof.
  destruct (failed_upload_leaves_record_untouched Scenario.cfg_all Scenario.tree_one
              Scenario.clock0 Scenario.remote_no_upload ["output"] Scenario.doc_file
              (after_migration [])) as (evs & Htr & Hfail & _).
  assert (Hevs : evs =
    [EvHash Scenario.doc_file; EvGet "trials"; EvCreate "trials";
     EvResolved "trials" (Some "id-trials");
     EvPost Scenario.doc_file "id-trials"; EvSleep 5;
     EvPost Scenario.doc_file "id-trials"; EvSleep 5;
     EvPost Scenario.doc_file "id-trials";
     EvUploaded Scenario.doc_file false]).
  { apply (app_inv_head (trace (after_migration []))). rewrite <- Htr.
    vm_compute. reflexivity. }
  destruct Hfail as (Hf & Ha & _ & _).
  - rewrite Hevs. do 9 apply list_elem_of_further. apply list_elem_of_here.
  - split; [exact Hf | exact Ha].
Defined.

(** With a service that refuses to create ["history"], an archived file is
    skipped and reported. *)
Lemma failed_resolution_witness :
  files (process_file Scenario.cfg_all Scenario.tree_history Scenario.clock0
           Scenario.remote_no_history ["output"]
           ["output"; "history"; "2025-01-01-NCT00000001-zh.md"] (after_migration []))
  = files (after_migration []) ∧
  EvPrintSkip "2025-01-01-NCT00000001-zh.md" "history" ∈
    [EvHash ["output"; "history"; "2025-01-01-NCT00000001-zh.md"];
     EvGet "history"; EvCreate "history"; EvResolved "history" None;
     EvPrintSkip "2025-01-01-NCT00000001-zh.md" "history"].
Proof.
  destruct (proj1 (collection_resolved_once_when_it_succeeds Scenario.cfg_all
                     Scenario.tree_history Scenario.clock0 Scenario.remote_no_history)
              ["output"] ["output"; "history"; "2025-01-01-NCT00000001-zh.md"]
              (after_migration [])
              [EvHash ["output"; "history"; "2025-01-01-NCT00000001-zh.md"];
               EvGet "history"; EvCreate "history"; EvResolved "history" None;
               EvPrintSkip "2025-01-01-NCT00000001-zh.md" "history"]
              None) as (Hf & _ & _ & _ & Hp & _).
  - vm_compute. reflexivity.
  - do 3 apply list_elem_of_further. apply list_elem_of_here.
  - reflexivity.
  - split; [exact Hf | exact Hp].
Defined.

(** * Further properties of the run *)

(** ** Counts and events *)

Lemma count_events_app p t1 t2 :
  count_events p (t1 ++ t2) = (count_events p t1 + count_events p t2)%nat.
Proof. unfold count_events. by rewrite List.filter_app, length_app. Qed.

Lemma count_events_cons p e t :
  count_events p (e :: t) = ((if p e then 1 else 0) + count_events p t)%nat.
Proof. unfold count_events. cbn. by destruct (p e). Qed.

Lemma count_events_none p t :
  Forall (fun e => p e = false) t → count_events p t = 0%nat.
Proof.
  induction 1 as [|e t He _ IH]; [done |].
  by rewrite count_events_cons, He, IH.
Qed.

Lemma count_events_resolution p n cache cache' revs cid :
  resolution n cache cache' revs cid →
  p (EvGet n) = false → p (EvCreate n) = false → p (EvResolved n cid) = false →
  count_events p revs = 0%nat.
Proof.
  intros [(id & _ & _ & -> & _)|(_ & [->| ->] & _)] H1 H2 H3; [done | |];
    apply count_events_none; repeat constructor; done.
Qed.

Lemma count_events_upload p d fp id uevs :
  upload_events d fp id uevs →
  p (EvPost fp id) = false → p (EvSleep d) = false →
  count_events p uevs = 0%nat.
Proof.
  intros Hup H1 H2. apply count_events_none.
  eapply Forall_impl; [exact Hup |]. by intros e [-> | ->].
Qed.

(** Every file that passes the inclusion rule ends in exactly one of the
    counts or is reported as given up; [added] and [modified] count the
    successful uploads, each of which is followed by one save. *)
Theorem run_accounts_for_every_file
    (cfg : Config) (tree : Tree) (clock : Clock) (remote : Remote)
    (original_files : store) :
  let run := sync_once cfg tree clock remote original_files in
  (skipped run + added run + modified run + count_events is_given_up (trace run))%nat =
    length (List.filter (fun x => negb (excluded_by_marker (name x.2)))
                        (scan_list cfg tree)) ∧
  (added run + modified run)%nat = count_events is_upload_ok (trace run) ∧
  count_events is_save (trace run) = S (count_events is_upload_ok (trace run)).
Proof.
  cbn zeta.
  apply (scan_ind cfg tree clock remote
    (fun pre s =>
       (skipped s + added s + modified s + count_events is_given_up (trace s))%nat =
         length (List.filter (fun x => negb (excluded_by_marker (name x.2))) pre) ∧
       (added s + modified s)%nat = count_events is_upload_ok (trace s) ∧
       count_events is_save (trace s) = S (count_events is_upload_ok (trace s)))).
  { by cbn. }
  intros pre root fp s _ (Hacc & Hup & Hsave).
  destruct (process_file_outcome cfg tree clock remote root fp s) as (evs & -> & Hout).
  rewrite List.filter_app, length_app, !count_events_app. cbn [List.filter snd].
  destruct Hout as [Hm -> -> | Hm Hd -> -> | Hm Hd Hu -> ->
                   | revs cid Hm Hd Hu Hres Ht Hf Ha Hmo Hs ->
                   | revs id uevs Hm Hd Hu Hres Ht Hupl Hf Ha Hmo Hs ->
                   | revs id uevs t Hm Hd Hu Hres Ht Hupl Hf Ha Hmo Hs ->];
    rewrite Hm; cbn [negb length].
  - cbn. lia.
  - cbn. lia.
  - cbn. lia.
  - rewrite !count_events_cons, !count_events_app.
    rewrite !(count_events_resolution _ _ _ _ _ _ Hres) by done.
    cbn. lia.
  - rewrite !count_events_cons, !count_events_app.
    rewrite !(count_events_resolution _ _ _ _ _ _ Hres) by done.
    rewrite !(count_events_upload _ _ _ _ _ Hupl) by done.
    cbn. lia.
  - rewrite !count_events_cons, !count_events_app.
    rewrite !(count_events_resolution _ _ _ _ _ _ Hres) by done.
    rewrite !(count_events_upload _ _ _ _ _ Hupl) by done.
    cbn. destruct (record_truthy _); lia.
Qed.

(** ** The records across a run *)

(** After any run the records are in migrated form (distinct keys, each its
    own identity, every record with a file name), so the migration of the
    next run leaves them as they are. *)
Theorem run_leaves_store_migrated
    (cfg : Config) (tree : Tree) (clock : Clock) (remote : Remote)
    (original_files : store) :
  let run := sync_once cfg tree clock remote original_files in
  migrated (files run) ∧ migrate (files run) = files run.
Proof.
  cbn zeta.
  assert (Hmig : migrated (files (sync_once cfg tree clock remote original_files))).
  { apply (run_ind cfg tree clock remote (fun s => migrated (files s))).
    - apply migrate_migrated.
    - intros root fp s Hs.
      destruct (process_file_outcome cfg tree clock remote root fp s) as (evs & _ & Hout).
      destruct Hout as [? -> _ | ? ? -> _ | ? ? ? -> _
                       | ? ? ? ? ? ? ? Hf ? ? ? _
                       | ? ? ? ? ? ? ? ? ? Hf ? ? ? _
                       | ? ? ? ? ? ? ? ? ? ? Hf ? ? ? _]; try done; rewrite Hf; try done.
      apply migrated_od_set; [done | apply get_file_identity_idemp |].
      rewrite new_record_filename. by eexists. }
  split; [done | by apply migrate_fixed].
Qed.

(** A run never deletes a record: every identity of the migrated store is
    still a key afterwards, and the record of an identity for which the run
    uploaded no file is the one the migration produced. *)
Theorem run_keeps_other_records
    (cfg : Config) (tree : Tree) (clock : Clock) (remote : Remote)
    (original_files : store) (id : string) :
  let run := sync_once cfg tree clock remote original_files in
  (od_mem id (migrate original_files) = true → od_mem id (files run) = true) ∧
  ((∀ p, EvUploaded p true ∈ trace run → _get_file_identity (name p) ≠ id) →
   od_get id (files run) = od_get id (migrate original_files)).
Proof.
  cbn zeta.
  apply (run_ind cfg tree clock remote
    (fun s =>
       (od_mem id (migrate original_files) = true → od_mem id (files s) = true) ∧
       ((∀ p, EvUploaded p true ∈ trace s → _get_file_identity (name p) ≠ id) →
        od_get id (files s) = od_get id (migrate original_files)))).
  { by split. }
  intros root fp s [Hmem Hframe].
  destruct (process_file_outcome cfg tree clock remote root fp s) as (evs & -> & Hout).
  assert (Hframe' :
    (∀ p, EvUploaded p true ∈ trace s ++ evs → _get_file_identity (name p) ≠ id) →
    od_get id (files s) = od_get id (migrate original_files)).
  { intros Hno. apply Hframe. intros p Hp. apply Hno, elem_of_app. by left. }
  destruct Hout as [? -> _ | ? ? -> _ | ? ? ? -> _
                   | ? ? ? ? ? ? ? Hf ? ? ? _
                   | ? ? ? ? ? ? ? ? ? Hf ? ? ? _
                   | revs cid uevs t ? ? ? ? ? ? Hf ? ? ? ->];
    try done; try (rewrite Hf; done).
  rewrite Hf in Hframe' |- *. split.
  - intros Hin. specialize (Hmem Hin). unfold od_mem in *.
    destruct (decide (_get_file_identity (name fp) = id)) as [<-|Hne].
    + by rewrite od_get_set_eq.
    + by rewrite od_get_set_ne.
  - intros Hno. rewrite od_get_set_ne; [by apply Hframe' |].
    apply Hno. apply elem_of_app. right. apply elem_of_cons. right.
    rewrite !elem_of_app. right. right. apply list_elem_of_here.
Qed.

(** ** Where and what a run uploads *)

(** The events of one file that read or upload a file concern that file,
    which has passed the inclusion rule and the date rule. *)
Lemma outcome_touches cfg tree clock root fp s s' evs e p :
  outcome cfg tree clock root fp s s' evs → e ∈ evs → touches e = Some p →
  p = fp ∧ excluded_by_marker (name fp) = false ∧
  excluded_by_date cfg clock (w_clock (world_ s)) (name fp) = false.
Proof.
  intros Hout He Ht.
  assert (Hd : excluded_by_date cfg clock (w_clock (world_ s)) (name fp) = false).
  { destruct Hout as [? ? -> | ? ? ? -> | | | |]; try done; by apply elem_of_nil in He. }
  destruct (outcome_events _ _ _ _ _ _ _ _ _ Hout He) as (Hm & Hcases).
  split; [| done].
  destruct Hcases as [->|[(n & cid & _ & [->|[->| ->]])|[(id & ->)|[(d & ->)|
                     [(ok & ->)|[->|(n & ->)]]]]]]; cbn in Ht; congruence.
Qed.

(** Every upload request carries a non-empty collection ID, and that ID was
    returned by the remote service earlier in the same run for the grouping
    name of the uploaded file: no ID is taken from the saved records. *)
Theorem upload_goes_to_collection_resolved_in_run
    (cfg : Config) (tree : Tree) (clock : Clock) (remote : Remote)
    (original_files : store) (file_path : path) (id : string) :
  EvPost file_path id ∈ trace (sync_once cfg tree clock remote original_files) →
  id ≠ "" ∧
  ∃ root, (root, file_path) ∈ scan_list cfg tree ∧
          EvResolved (collection_name_of (FASTGPT_CN_SUBDIR cfg) root file_path) (Some id)
            ∈ trace (sync_once cfg tree clock remote original_files).
Proof.
  cut (
    (∀ n c, collection_cache (sync_once cfg tree clock remote original_files) !! n = Some c →
            c ≠ "" ∧ EvResolved n (Some c)
                       ∈ trace (sync_once cfg tree clock remote original_files)) ∧
    (∀ p c, EvPost p c ∈ trace (sync_once cfg tree clock remote original_files) →
            c ≠ "" ∧ ∃ root, (root, p) ∈ scan_list cfg tree ∧
              EvResolved (collection_name_of (FASTGPT_CN_SUBDIR cfg) root p) (Some c)
                ∈ trace (sync_once cfg tree clock remote original_files))).
  { intros [_ H]. apply H. }
  apply (scan_ind cfg tree clock remote
    (fun _ s =>
       (∀ n c, collection_cache s !! n = Some c →
               c ≠ "" ∧ EvResolved n (Some c) ∈ trace s) ∧
       (∀ p c, EvPost p c ∈ trace s →
               c ≠ "" ∧ ∃ root, (root, p) ∈ scan_list cfg tree ∧
                 EvResolved (collection_name_of (FASTGPT_CN_SUBDIR cfg) root p) (Some c)
                   ∈ trace s))).
  { split; [intros n c Hc; unfold after_migration in Hc; cbn [collection_cache] in Hc;
            by rewrite lookup_empty in Hc |].
    intros p c Hp. apply list_elem_of_singleton in Hp. discriminate. }
  intros pre root fp s (post & Hscan) [Hcache Hposts].
  assert (Hfp : (root, fp) ∈ scan_list cfg tree).
  { rewrite Hscan. apply elem_of_app. right. apply list_elem_of_here. }
  destruct (process_file_outcome cfg tree clock remote root fp s) as (evs & -> & Hout).
  set (cname := collection_name_of (FASTGPT_CN_SUBDIR cfg) root fp) in *.
  (* what a resolution adds to the cache and what it yields *)
  assert (Hres_ok : ∀ cache' revs cid,
    resolution cname (collection_cache s) cache' revs cid →
    (∀ n c, cache' !! n = Some c →
            c ≠ "" ∧ (EvResolved n (Some c) ∈ trace s ∨ EvResolved n (Some c) ∈ revs)) ∧
    (∀ c, cid = Some c → truthy cid = true →
          c ≠ "" ∧ (EvResolved cname (Some c) ∈ trace s ∨
                    EvResolved cname (Some c) ∈ revs))).
  { intros cache' revs cid [(c0 & Hc0 & -> & -> & ->)|(Hnone & Hrevs & ->)].
    - split.
      + intros n c Hc. destruct (Hcache n c Hc). split; [done | by left].
      + intros c [= <-] _. destruct (Hcache cname c0 Hc0). split; [done | by left].
    - assert (Hin : EvResolved cname cid ∈ revs).
      { destruct Hrevs as [-> | ->]; rewrite !elem_of_cons; tauto. }
      assert (Hne : ∀ c, cid = Some c → truthy cid = true → c ≠ "").
      { intros c -> Hc. cbn in Hc. by apply negb_true_iff, bool_decide_eq_false in Hc. }
      split.
      + intros n c. destruct (truthy cid) eqn:Ht.
        * rewrite lookup_insert. case_decide as Hn.
          -- subst n. intros [= <-]. destruct cid as [c|]; [| done]. cbn.
             split; [by apply Hne | by right].
          -- intros Hc. destruct (Hcache n c Hc). split; [done | by left].
        * intros Hc. destruct (Hcache n c Hc). split; [done | by left].
      + intros c -> Ht. split; [by apply Hne | by right]. }
  assert (Hlift : ∀ (evs : list event) e, e ∈ trace s ∨ e ∈ evs → e ∈ trace s ++ evs).
  { intros evs' e. by rewrite elem_of_app. }
  assert (Hold : ∀ evs' p c, EvPost p c ∈ trace s →
    c ≠ "" ∧ ∃ root, (root, p) ∈ scan_list cfg tree ∧
      EvResolved (collection_name_of (FASTGPT_CN_SUBDIR cfg) root p) (Some c)
        ∈ trace s ++ evs').
  { intros evs' p c Hp. destruct (Hposts p c Hp) as (Hne & r & Hr & Hev).
    split; [done |]. exists r. split; [done |]. apply elem_of_app. by left. }
  destruct Hout as [? -> -> | ? ? -> -> | ? ? ? -> ->
                   | revs cid ? ? ? Hres ? ? ? ? ? ->
                   | revs c uevs ? ? ? Hres Ht Hup ? ? ? ? ->
                   | revs c uevs t ? ? ? Hres Ht Hup ? ? ? ? ->].
  - rewrite app_nil_r. by split.
  - rewrite app_nil_r. by split.
  - split.
    + intros n c Hc. destruct (Hcache n c Hc). split; [done |].
      apply elem_of_app. by left.
    + intros p c [Hp|Hp%list_elem_of_singleton]%elem_of_app; [by apply Hold | done].
  - destruct (Hres_ok _ _ _ Hres) as [Hc' _]. split.
    + intros n c Hc. destruct (Hc' n c Hc) as [Hne [Hin|Hin]]; (split; [done |]).
      * apply elem_of_app. by left.
      * apply elem_of_app. right. apply elem_of_cons. right. apply elem_of_app. by left.
    + intros p c [Hp|Hp]%elem_of_app; [by apply Hold |]. exfalso.
      rewrite elem_of_cons, elem_of_app, list_elem_of_singleton in Hp.
      destruct Hp as [?|[Hp|?]]; [done | | done].
      destruct (resolution_events _ _ _ _ _ _ Hres Hp) as (_ & [?|[?|?]]); done.
  - destruct (Hres_ok _ _ _ Hres) as [Hc' Hid]. split.
    + intros n c0 Hc. destruct (Hc' n c0 Hc) as [Hne [Hin|Hin]]; (split; [done |]).
      * apply elem_of_app. by left.
      * apply elem_of_app. right. apply elem_of_cons. right. apply elem_of_app. by left.
    + intros p c0 [Hp|Hp]%elem_of_app; [by apply Hold |].
      rewrite elem_of_cons, !elem_of_app, list_elem_of_singleton in Hp.
      destruct Hp as [?|[Hp|[Hp|?]]]; [done | | | done].
      * destruct (resolution_events _ _ _ _ _ _ Hres Hp) as (_ & [?|[?|?]]); done.
      * destruct (upload_events_elem _ _ _ _ _ Hup Hp) as [[= -> ->]|?]; [| done].
        destruct (Hid c eq_refl Ht) as [Hne Hin]. split; [done |].
        exists root. split; [done |]. fold cname.
        destruct Hin as [Hin|Hin]; apply elem_of_app; [by left | right].
        apply elem_of_cons. right. apply elem_of_app. by left.
  - destruct (Hres_ok _ _ _ Hres) as [Hc' Hid]. split.
    + intros n c0 Hc. destruct (Hc' n c0 Hc) as [Hne [Hin|Hin]]; (split; [done |]).
      * apply elem_of_app. by left.
      * apply elem_of_app. right. apply elem_of_cons. right. apply elem_of_app. by left.
    + intros p c0 [Hp|Hp]%elem_of_app; [by apply Hold |].
      rewrite elem_of_cons, !elem_of_app, !elem_of_cons, elem_of_nil in Hp.
      destruct Hp as [?|[Hp|[Hp|[?|[?|[]]]]]]; [done | | | done | done].
      * destruct (resolution_events _ _ _ _ _ _ Hres Hp) as (_ & [?|[?|?]]); done.
      * destruct (upload_events_elem _ _ _ _ _ Hup Hp) as [[= -> ->]|?]; [| done].
        destruct (Hid c eq_refl Ht) as [Hne Hin]. split; [done |].
        exists root. split; [done |]. fold cname.
        destruct Hin as [Hin|Hin]; apply elem_of_app; [by left | right].
        apply elem_of_cons. right. apply elem_of_app. by left.
Qed.

(** In mode ["today"], on a day that does not change during the run, no
    file whose name does not begin with the date is hashed or uploaded. *)
Theorem today_mode_touches_only_dated_files
    (cfg : Config) (tree : Tree) (clock : Clock) (remote : Remote)
    (original_files : store) (today : string) (e : event) (file_path : path) :
  UPLOAD_FILTER_MODE cfg = Today →
  (∀ n, today_str clock n = today) →
  e ∈ trace (sync_once cfg tree clock remote original_files) →
  touches e = Some file_path →
  Str.startswith today (name file_path) = true.
Proof.
  intros Hmode Hday. revert e file_path.
  apply (run_ind cfg tree clock remote
    (fun s => ∀ e p, e ∈ trace s → touches e = Some p →
                     Str.startswith today (name p) = true)).
  - intros e p ->%list_elem_of_singleton. discriminate.
  - intros root fp s IH e p.
    destruct (process_file_outcome cfg tree clock remote root fp s) as (evs & -> & Hout).
    intros [He|He]%elem_of_app Ht; [by apply (IH e) |].
    destruct (outcome_touches _ _ _ _ _ _ _ _ _ _ Hout He Ht) as (-> & _ & Hd).
    unfold excluded_by_date in Hd. rewrite Hmode, Hday in Hd.
    by apply negb_false_iff in Hd.
Qed.

Lemma today_mode_witness :
  Str.startswith "2025-01-01" (name Scenario.doc_file) = true.
Proof.
  apply (today_mode_touches_only_dated_files Scenario.cfg_today Scenario.tree_one
           Scenario.clock0 Scenario.remote_ok [] "2025-01-01"
           (EvHash Scenario.doc_file) Scenario.doc_file).
  - reflexivity.
  - reflexivity.
  - vm_compute. apply list_elem_of_further, list_elem_of_here.
  - reflexivity.
Defined.

(** ** The extension filter *)

Lemma substring_split (s : string) (i : nat) :
  (i ≤ String.length s)%nat →
  s = String.substring 0 i s +:+ String.substring i (String.length s - i) s.
Proof.
  revert i. induction s as [|c s IH]; intros [|i] Hi; cbn in *; try lia; try done.
  - str_simpl. f_equal. clear. induction s as [|c' s IH]; cbn; [done | by f_equal].
  - str_simpl. f_equal. apply IH. lia.
Qed.

Lemma substring_length (s : string) (i : nat) :
  (i ≤ String.length s)%nat → String.length (String.substring 0 i s) = i.
Proof.
  revert i. induction s as [|c s IH]; intros [|i] Hi; cbn in *; try lia; try done.
  f_equal. apply IH. lia.
Qed.

(** A path with the suffix [.md] has a name made of a non-empty stem
    followed by [.md]. *)
Lemma suffix_md_name p :
  suffix p = ".md" → ∃ stem, stem ≠ "" ∧ name p = stem +:+ ".md".
Proof.
  unfold suffix, Str.slice_from, Str.len.
  destruct (0 <? Str.rfind "." (name p)) eqn:Hpos; cbn [andb]; [| discriminate].
  destruct (Str.rfind "." (name p) <? Z.of_nat (String.length (name p)) - 1) eqn:Hlt;
    [| discriminate].
  apply Z.ltb_lt in Hpos, Hlt. intros Hs.
  set (i := Z.to_nat (Str.rfind "." (name p))) in *.
  assert (Hi : (i ≤ String.length (name p))%nat) by lia.
  exists (String.substring 0 i (name p)). split.
  - intros Hempty. pose proof (substring_length (name p) i Hi) as Hl.
    rewrite Hempty in Hl. cbn in Hl. lia.
  - rewrite <- Hs. by apply substring_split.
Qed.

(** Whatever a run hashes or uploads is a regular file below an existing
    scan root whose name is a non-empty stem followed by [.md]. *)
Theorem run_touches_only_markdown_files
    (cfg : Config) (tree : Tree) (clock : Clock) (remote : Remote)
    (original_files : store) (e : event) (file_path : path) :
  e ∈ trace (sync_once cfg tree clock remote original_files) →
  touches e = Some file_path →
  (∃ stem, stem ≠ "" ∧ name file_path = stem +:+ ".md") ∧
  ∃ root, root ∈ LOCAL_DIRS cfg ∧ exists_ tree root = true ∧
          file_path ∈ rglob tree root ∧ is_file tree file_path = true.
Proof.
  assert (Hscan : ∀ root fp, (root, fp) ∈ scan_list cfg tree →
    suffix fp = ".md" ∧ root ∈ LOCAL_DIRS cfg ∧ exists_ tree root = true ∧
    fp ∈ rglob tree root ∧ is_file tree fp = true).
  { intros root fp. unfold scan_list. rewrite list_elem_of_In, in_concat.
    intros (l & Hl & Hin). apply in_map_iff in Hl as (r & <- & Hr).
    apply list_elem_of_In in Hr, Hin.
    destruct (exists_ tree r) eqn:Hex; [| by apply elem_of_nil in Hin].
    apply list_elem_of_fmap in Hin as (f & [= -> ->] & Hf).
    unfold all_files in Hf. apply list_elem_of_filter in Hf as [Hp Hf].
    apply andb_prop_elim in Hp as [Hfile Hsuf].
    apply Is_true_true in Hfile. apply bool_decide_unpack in Hsuf. done. }
  revert e file_path.
  apply (scan_ind cfg tree clock remote
    (fun _ s => ∀ e p, e ∈ trace s → touches e = Some p →
       (∃ stem, stem ≠ "" ∧ name p = stem +:+ ".md") ∧
       ∃ root, root ∈ LOCAL_DIRS cfg ∧ exists_ tree root = true ∧
               p ∈ rglob tree root ∧ is_file tree p = true)).
  - intros e p ->%list_elem_of_singleton. discriminate.
  - intros pre root fp s (post & Hpre) IH e p.
    destruct (process_file_outcome cfg tree clock remote root fp s) as (evs & -> & Hout).
    intros [He|He]%elem_of_app Ht; [by apply (IH e) |].
    destruct (outcome_touches _ _ _ _ _ _ _ _ _ _ Hout He Ht) as (-> & _ & _).
    destruct (Hscan root fp) as (Hsuf & Hroot & Hex & Hin & Hfile).
    { rewrite Hpre. apply elem_of_app. right. apply list_elem_of_here. }
    split; [by apply suffix_md_name | by exists root].
Qed.

(** ** Load on the remote service *)

Section RequestFacts.
Variable cfg : Config.
Variable tree : Tree.
Variable clock : Clock.
Variable remote : Remote.

Lemma upload_attempts_requests fp id todo :
  ∀ attempt w, ∃ evs,
    w_trace (upload_attempts cfg remote todo attempt fp id w).2 = w_trace w ++ evs ∧
    (count_events is_request evs ≤ todo)%nat.
Proof.
  induction todo as [|todo IH]; intros attempt w; cbn [upload_attempts].
  - exists []. split; [by rewrite app_nil_r | done].
  - destruct (ok200 _); cbn zeta.
    + exists [EvPost fp id]. split; [done | cbn; lia].
    + destruct (attempt <? RETRY_TIMES cfg - 1).
      * destruct (IH (attempt + 1)
          (emit (EvSleep (RETRY_DELAY cfg)) (tick (emit (EvPost fp id) w))))
          as (evs & -> & Hevs).
        exists (EvPost fp id :: EvSleep (RETRY_DELAY cfg) :: evs). split.
        -- cbn. by rewrite <- !app_assoc.
        -- rewrite !count_events_cons. cbn. lia.
      * destruct (IH (attempt + 1) (tick (emit (EvPost fp id) w))) as (evs & -> & Hevs).
        exists (EvPost fp id :: evs). split.
        -- cbn. by rewrite <- !app_assoc.
        -- rewrite count_events_cons. cbn. lia.
Qed.

Lemma resolution_requests n cache cache' revs cid :
  resolution n cache cache' revs cid → (count_events is_request revs ≤ 2)%nat.
Proof.
  intros [(id & _ & _ & -> & _)|(_ & [->| ->] & _)]; cbn; lia.
Qed.

Lemma process_file_requests root fp s :
  ∃ evs, trace (process_file cfg tree clock remote root fp s) = trace s ++ evs ∧
         (count_events is_request evs ≤
          if excluded_by_marker (name fp) then 0
          else 2 + Z.to_nat (RETRY_TIMES cfg))%nat.
Proof.
  unfold process_file.
  destruct (excluded_by_marker (name fp)) eqn:Hm.
  { exists []. split; [by rewrite app_nil_r | done]. }
  destruct (excluded_by_date cfg clock (w_clock (world_ s)) (name fp)) eqn:Hd.
  { exists []. split; [by rewrite app_nil_r | cbn; lia]. }
  cbn [files with_world].
  destruct (unchanged _ _) eqn:Hu.
  { exists [EvHash fp]. split; [done | cbn; lia]. }
  set (s1 := with_world (emit (EvHash fp) (world_ s)) s).
  set (cname := collection_name_of (FASTGPT_CN_SUBDIR cfg) root fp).
  pose proof (resolve_collection_spec remote cname s1) as Hres. cbn zeta in Hres.
  destruct (resolve_collection remote cname s1) as [cid s2]. cbn [fst snd] in Hres.
  destruct Hres as (_ & _ & _ & _ & revs & Htr & Hres).
  apply resolution_requests in Hres.
  destruct (truthy cid) eqn:Ht; cbn [negb].
  - destruct cid as [c|]; [| discriminate].
    change (default "" (Some c)) with c.
    pose proof (upload_attempts_requests fp c (Z.to_nat (RETRY_TIMES cfg)) 0
                  (world_ s2)) as (uevs & Hup & Huevs).
    fold (upload_file cfg remote fp c (world_ s2)) in Hup.
    destruct (upload_file cfg remote fp c (world_ s2)) as [ok w3].
    cbn [snd] in Hup. fold (trace s2) in Hup. rewrite Htr in Hup.
    destruct ok.
    + eexists (EvHash fp :: revs ++ uevs ++ [EvUploaded fp true; EvSave _]). split.
      * unfold trace. cbn. rewrite Hup. unfold trace. cbn.
        rewrite <- !app_assoc. cbn. reflexivity.
      * rewrite count_events_cons, !count_events_app. cbn. lia.
    + exists (EvHash fp :: revs ++ uevs ++ [EvUploaded fp false]). split.
      * unfold trace. cbn. rewrite Hup. unfold trace. cbn.
        rewrite <- !app_assoc. cbn. reflexivity.
      * rewrite count_events_cons, !count_events_app. cbn. lia.
  - exists (EvHash fp :: revs ++ [EvPrintSkip (name fp) cname]). split.
    + unfold trace in *. cbn. rewrite Htr. cbn. rewrite <- !app_assoc. reflexivity.
    + rewrite count_events_cons, !count_events_app. cbn. lia.
Qed.

End RequestFacts.

(** A run sends at most [2 + RETRY_TIMES] HTTP requests for each file that
    passes the inclusion rule (one list request, one create request and the
    upload attempts), and none for the other files. *)
Theorem run_requests_are_bounded
    (cfg : Config) (tree : Tree) (clock : Clock) (remote : Remote)
    (original_files : store) :
  (count_events is_request (trace (sync_once cfg tree clock remote original_files)) ≤
   length (List.filter (fun x => negb (excluded_by_marker (name x.2)))
                       (scan_list cfg tree))
   * (2 + Z.to_nat (RETRY_TIMES cfg)))%nat.
Proof.
  apply (scan_ind cfg tree clock remote
    (fun pre s =>
       (count_events is_request (trace s) ≤
        length (List.filter (fun x => negb (excluded_by_marker (name x.2))) pre)
        * (2 + Z.to_nat (RETRY_TIMES cfg)))%nat)).
  { cbn. lia. }
  intros pre root fp s _ IH.
  destruct (process_file_requests cfg tree clock remote root fp s) as (evs & -> & Hevs).
  rewrite count_events_app, List.filter_app, length_app. cbn [List.filter snd].
  destruct (excluded_by_marker (name fp)); cbn [negb length]; lia.
Qed.

(** ** New and changed files *)

(** When the upload of a file succeeds, the record of its identity is set to
    this file (name, fingerprint, path below the root); the file had no
    record with this fingerprint; it is counted as modified when a non-empty
    record existed for the identity and as added otherwise, and [skipped]
    stays. *)
Theorem successful_upload_is_recorded_and_counted
    (cfg : Config) (tree : Tree) (clock : Clock) (remote : Remote)
    (root file_path : path) (s : run_state) :
  let s' := process_file cfg tree clock remote root file_path s in
  let identity := _get_file_identity (name file_path) in
  ∃ evs, trace s' = trace s ++ evs ∧
    (EvUploaded file_path true ∈ evs →
     unchanged (od_get identity (files s)) (md5_hexdigest tree file_path) = false ∧
     (∃ r, od_get identity (files s') = Some r ∧
           r !! "hash" = Some (md5_hexdigest tree file_path) ∧
           r !! "filename" = Some (name file_path) ∧
           r !! "sourcePath" = Some (relative_to_str root file_path) ∧
           ∃ id, r !! "collectionId" = Some id ∧ id ≠ "") ∧
     skipped s' = skipped s ∧
     (if record_truthy (od_get identity (files s))
      then modified s' = S (modified s) ∧ added s' = added s
      else added s' = S (added s) ∧ modified s' = modified s)).
Proof.
  cbn zeta.
  destruct (process_file_outcome cfg tree clock remote root file_path s)
    as (evs & Htr & Hout).
  exists evs. split; [done |]. intros He.
  destruct Hout as [Hm -> -> | Hm Hd -> -> | Hm Hd Hu -> ->
                   | revs cid Hm Hd Hu Hres Ht Hf Ha Hmo Hs ->
                   | revs id uevs Hm Hd Hu Hres Ht Hup Hf Ha Hmo Hs ->
                   | revs id uevs t Hm Hd Hu Hres Ht Hup Hf Ha Hmo Hs ->].
  - by apply elem_of_nil in He.
  - by apply elem_of_nil in He.
  - apply list_elem_of_singleton in He. discriminate.
  - exfalso. rewrite elem_of_cons, elem_of_app, list_elem_of_singleton in He.
    destruct He as [?|[He|?]]; [done | | done].
    destruct (resolution_events _ _ _ _ _ _ Hres He) as (_ & [?|[?|?]]); done.
  - exfalso. rewrite elem_of_cons, !elem_of_app, list_elem_of_singleton in He.
    destruct He as [?|[He|[He|?]]]; [done | | | done].
    + destruct (resolution_events _ _ _ _ _ _ Hres He) as (_ & [?|[?|?]]); done.
    + destruct (upload_events_elem _ _ _ _ _ Hup He); done.
  - split; [done |]. split; [| split; [done |]].
    + eexists. rewrite Hf, od_get_set_eq. split; [done |].
      split; [apply new_record_hash |]. split; [apply new_record_filename |].
      unfold new_record. split; [apply lookup_insert_eq |].
      exists id. split.
      * rewrite lookup_insert_ne by done. apply lookup_insert_eq.
      * cbn in Ht. by apply negb_true_iff, bool_decide_eq_false in Ht.
    + rewrite Ha, Hmo. by destruct (record_truthy _).
Qed.

Lemma successful_upload_witness :
  added (process_file Scenario.cfg_all Scenario.tree_one Scenario.clock0
           Scenario.remote_ok ["output"] Scenario.doc_file (after_migration []))
  = 1%nat ∧
  modified (process_file Scenario.cfg_all Scenario.tree_one Scenario.clock0
              Scenario.remote_ok ["output"] Scenario.doc_file (after_migration []))
  = 0%nat.
Proof.
  destruct (successful_upload_is_recorded_and_counted Scenario.cfg_all Scenario.tree_one
              Scenario.clock0 Scenario.remote_ok ["output"] Scenario.doc_file
              (after_migration [])) as (evs & Htr & Hok).
  assert (Hevs : evs =
    [EvHash Scenario.doc_file; EvGet "trials"; EvCreate "trials";
     EvResolved "trials" (Some "id-trials");
     EvPost Scenario.doc_file "id-trials";
     EvUploaded Scenario.doc_file true;
     EvSave (files (process_file Scenario.cfg_all Scenario.tree_one Scenario.clock0
                      Scenario.remote_ok ["output"] Scenario.doc_file
                      (after_migration [])))]).
  { apply (app_inv_head (trace (after_migration []))). rewrite <- Htr.
    vm_compute. reflexivity. }
  destruct Hok as (_ & _ & _ & Hcount).
  - rewrite Hevs. do 5 apply list_elem_of_further. apply list_elem_of_here.
  - exact Hcount.
Defined.

Lemma upload_goes_to_collection_witness :
  "id-trials" ≠ "" ∧
  ∃ root, (root, Scenario.doc_file) ∈ scan_list Scenario.cfg_all Scenario.tree_one ∧
          EvResolved (collection_name_of (FASTGPT_CN_SUBDIR Scenario.cfg_all) root
                        Scenario.doc_file) (Some "id-trials")
            ∈ trace (sync_once Scenario.cfg_all Scenario.tree_one Scenario.clock0
                       Scenario.remote_ok []).
Proof.
  apply (upload_goes_to_collection_resolved_in_run Scenario.cfg_all Scenario.tree_one
           Scenario.clock0 Scenario.remote_ok [] Scenario.doc_file "id-trials").
  vm_compute. do 5 apply list_elem_of_further. apply list_elem_of_here.
Defined.

Lemma run_touches_only_markdown_witness :
  (∃ stem, stem ≠ "" ∧ name Scenario.doc_file = stem +:+ ".md") ∧
  ∃ root, root ∈ LOCAL_DIRS Scenario.cfg_all ∧ exists_ Scenario.tree_one root = true ∧
          Scenario.doc_file ∈ rglob Scenario.tree_one root ∧
          is_file Scenario.tree_one Scenario.doc_file = true.
Proof.
  apply (run_touches_only_markdown_files Scenario.cfg_all Scenario.tree_one
           Scenario.clock0 Scenario.remote_ok [] (EvHash Scenario.doc_file)).
  - vm_compute. apply list_elem_of_further, list_elem_of_here.
  - reflexivity.
Defined.

(** ** No attempt configured *)

Lemma no_attempt_file cfg tree clock remote root fp s :
  RETRY_TIMES cfg ≤ 0 →
  let s' := process_file cfg tree clock remote root fp s in
  files s' = files s ∧ added s' = added s ∧ modified s' = modified s.
Proof.
  intros Hrt. cbn zeta. unfold process_file.
  destruct (excluded_by_marker (name fp)); [done |].
  destruct (excluded_by_date cfg clock (w_clock (world_ s)) (name fp)); [done |].
  cbn [files with_world].
  destruct (unchanged _ _); [done |].
  set (s1 := with_world (emit (EvHash fp) (world_ s)) s).
  pose proof (resolve_collection_spec remote
                (collection_name_of (FASTGPT_CN_SUBDIR cfg) root fp) s1) as Hres.
  cbn zeta in Hres.
  destruct (resolve_collection remote _ s1) as [cid s2]. cbn [fst snd] in Hres.
  destruct Hres as (Hf & Ha & Hm & _).
  destruct (truthy cid); cbn [negb]; [| done].
  unfold upload_file. replace (Z.to_nat (RETRY_TIMES cfg)) with 0%nat by lia.
  done.
Qed.

(** With [RETRY_TIMES] zero or negative no upload is attempted: a run adds
    and modifies nothing and leaves the migrated records as they are. *)
Theorem no_attempt_configured_uploads_nothing
    (cfg : Config) (tree : Tree) (clock : Clock) (remote : Remote)
    (original_files : store) :
  RETRY_TIMES cfg ≤ 0 →
  let run := sync_once cfg tree clock remote original_files in
  added run = 0%nat ∧ modified run = 0%nat ∧ files run = migrate original_files.
Proof.
  intros Hrt. cbn zeta.
  apply (run_ind cfg tree clock remote
    (fun s => added s = 0%nat ∧ modified s = 0%nat ∧ files s = migrate original_files)).
  - done.
  - intros root fp s (Ha & Hm & Hf).
    destruct (no_attempt_file cfg tree clock remote root fp s Hrt) as (-> & -> & ->).
    done.
Qed.

Lemma no_attempt_configured_witness :
  added (sync_once Scenario.cfg_no_attempt Scenario.tree_one Scenario.clock0
           Scenario.remote_ok []) = 0%nat ∧
  modified (sync_once Scenario.cfg_no_attempt Scenario.tree_one Scenario.clock0
              Scenario.remote_ok []) = 0%nat ∧
  files (sync_once Scenario.cfg_no_attempt Scenario.tree_one Scenario.clock0
           Scenario.remote_ok []) = migrate [].
Proof.
  apply (no_attempt_configured_uploads_nothing Scenario.cfg_no_attempt Scenario.tree_one
           Scenario.clock0 Scenario.remote_ok []).
  vm_compute. discriminate.
Defined.

(** * Further functions *)

(** ** Stripping and splitting *)

Section StripFacts.
Variable p : ascii -> bool.

Lemma rstrip_by_cons a s :
  PyStr.rstrip_by p (String a s) =
  if bool_decide (PyStr.rstrip_by p s = "") && p a then ""
  else String a (PyStr.rstrip_by p s).
Proof. cbn. destruct (PyStr.rstrip_by p s); cbn; [by destruct (p a) | done]. Qed.

Lemma rstrip_by_idemp s : PyStr.rstrip_by p (PyStr.rstrip_by p s) = PyStr.rstrip_by p s.
Proof.
  induction s as [|a s IH]; [done |].
  rewrite rstrip_by_cons. case_bool_decide as He; cbn [andb].
  - destruct (p a) eqn:Ha; [done |]. rewrite He. cbn. by rewrite Ha.
  - rewrite rstrip_by_cons, IH. by rewrite bool_decide_eq_false_2.
Qed.

Lemma lstrip_by_idemp s : PyStr.lstrip_by p (PyStr.lstrip_by p s) = PyStr.lstrip_by p s.
Proof.
  induction s as [|a s IH]; [done |]. cbn.
  destruct (p a) eqn:Ha; [done |]. cbn. by rewrite Ha.
Qed.

Lemma rstrip_lstrip s :
  PyStr.rstrip_by p s = s →
  PyStr.rstrip_by p (PyStr.lstrip_by p s) = PyStr.lstrip_by p s.
Proof.
  induction s as [|a s IH]; [done |]. intros Hs. cbn [PyStr.lstrip_by].
  destruct (p a) eqn:Ha; [| done].
  apply IH. rewrite rstrip_by_cons in Hs.
  destruct (bool_decide _ && p a); [discriminate | congruence].
Qed.

(** A string stripped at the right is empty or ends with a character that
    is kept. *)
Lemma rstrip_by_last s a :
  last (list_ascii_of_string (PyStr.rstrip_by p s)) = Some a → p a = false.
Proof.
  induction s as [|b s IH]; [done |]. rewrite rstrip_by_cons.
  case_bool_decide as He; cbn [andb].
  - destruct (p b) eqn:Hb; [done |]. rewrite He. cbn. by intros [= <-].
  - cbn [list_ascii_of_string].
    destruct (list_ascii_of_string (PyStr.rstrip_by p s)) as [|c l] eqn:Hl.
    + destruct (PyStr.rstrip_by p s); [done | discriminate].
    + rewrite last_cons. destruct (last (c :: l)) eqn:Hlast.
      * intros [= <-]. by apply IH.
      * by apply last_None in Hlast.
Qed.

End StripFacts.

Lemma strip_idemp s : PyStr.strip (PyStr.strip s) = PyStr.strip s.
Proof.
  unfold PyStr.strip.
  rewrite (rstrip_lstrip _ (PyStr.rstrip_by PyStr.is_space s)) by apply rstrip_by_idemp.
  apply lstrip_by_idemp.
Qed.

Lemma strip_nonempty_elem d l :
  d ∈ PyStr.strip_nonempty l → d ≠ "" ∧ PyStr.strip d = d.
Proof.
  unfold PyStr.strip_nonempty. intros (x & -> & Hx)%list_elem_of_fmap.
  apply list_elem_of_In, filter_In in Hx as [_ Hx].
  apply negb_true_iff, String.eqb_neq in Hx. split; [done | apply strip_idemp].
Qed.

Lemma strip_nonempty_clean l :
  Forall (fun d => d ≠ "" ∧ PyStr.strip d = d) l → PyStr.strip_nonempty l = l.
Proof.
  unfold PyStr.strip_nonempty. induction 1 as [|d l [Hne Hd] _ IH]; [done |].
  cbn. rewrite Hd. rewrite (proj2 (String.eqb_neq d "") Hne). cbn.
  by rewrite Hd, IH.
Qed.

(** ** [_parse_dirs] *)

(** Whatever [json.loads] does, every directory [_parse_dirs] returns is
    non-empty and has no white space at either end. *)
Theorem parse_dirs_entries_are_stripped
    (json_loads : string → option ParseDirs.parsed) (raw_val d : string) :
  d ∈ ParseDirs._parse_dirs json_loads raw_val → d ≠ "" ∧ PyStr.strip d = d.
Proof.
  unfold ParseDirs._parse_dirs.
  destruct (String.eqb raw_val ""); [intros H; by apply elem_of_nil in H |].
  destruct (ParseDirs.bracketed raw_val); [| apply strip_nonempty_elem].
  destruct (json_loads raw_val) as [[|items]|]; try apply strip_nonempty_elem.
  destruct (ParseDirs.all_strings items); apply strip_nonempty_elem.
Qed.

Lemma parse_dirs_entries_witness :
  "./data" ≠ "" ∧ PyStr.strip "./data" = "./data".
Proof.
  apply (parse_dirs_entries_are_stripped (fun _ => None) " ./output , ./data ,, ").
  vm_compute. apply list_elem_of_further, list_elem_of_here.
Defined.

Lemma contains_cons_false sep a d :
  Str.contains (String sep "") (String a d) = false →
  Ascii.eqb a sep = false ∧ Str.contains (String sep "") d = false.
Proof.
  cbn [Str.contains]. intros [Hp Hc]%orb_false_elim. split; [| done].
  cbn in Hp. destruct (ascii_dec sep a) as [->|Hne].
  - by destruct d.
  - by apply Ascii.eqb_neq.
Qed.

Lemma split_aux_piece sep d :
  Str.contains (String sep "") d = false →
  PyStr.split_aux sep d = (d, []) ∧
  ∀ r, PyStr.split_aux sep (d +:+ String sep r) = (d, PyStr.split sep r).
Proof.
  induction d as [|a d IH]; intros Hd.
  - split; [done |]. intros r. str_simpl. cbn [PyStr.split_aux].
    unfold PyStr.split. destruct (PyStr.split_aux sep r). by rewrite Ascii.eqb_refl.
  - apply contains_cons_false in Hd as [Ha Hd]. destruct (IH Hd) as [IH1 IH2]. split.
    + cbn [PyStr.split_aux]. by rewrite IH1, Ha.
    + intros r. str_simpl. cbn [PyStr.split_aux]. by rewrite IH2, Ha.
Qed.

Lemma split_concat sep d dirs :
  Forall (fun d => Str.contains (String sep "") d = false) (d :: dirs) →
  PyStr.split sep (String.concat (String sep "") (d :: dirs)) = d :: dirs.
Proof.
  revert d. induction dirs as [|d' dirs IH]; intros d Hall.
  - inversion Hall as [|? ? Hd _]; subst. cbn [String.concat]. unfold PyStr.split.
    by rewrite (proj1 (split_aux_piece sep d Hd)).
  - inversion Hall as [|? ? Hd Hrest]; subst.
    change (String.concat (String sep "") (d :: d' :: dirs))
      with (d +:+ String sep "" +:+ String.concat (String sep "") (d' :: dirs)).
    str_simpl. unfold PyStr.split at 1.
    rewrite (proj2 (split_aux_piece sep d Hd)), str_app_nil. by rewrite (IH d' Hrest).
Qed.

(** A comma-separated value made of clean directory names, which is not of
    the bracketed form, is read back as exactly these names, in order. *)
Theorem parse_dirs_reads_back_comma_list
    (json_loads : string → option ParseDirs.parsed) (dirs : list string) :
  Forall ParseDirs.clean_dir dirs →
  ParseDirs.bracketed (String.concat "," dirs) = false →
  ParseDirs._parse_dirs json_loads (String.concat "," dirs) = dirs.
Proof.
  intros Hclean Hbr. unfold ParseDirs._parse_dirs. rewrite Hbr.
  destruct dirs as [|d dirs]; [done |].
  assert (Hne : String.eqb (String.concat "," (d :: dirs)) "" = false).
  { inversion Hclean as [|? ? (Hd & _) _]; subst.
    destruct d as [|a d]; [done |]. by destruct dirs. }
  rewrite Hne, split_concat.
  - apply strip_nonempty_clean. eapply Forall_impl; [exact Hclean |].
    by intros x (? & ? & _).
  - eapply Forall_impl; [exact Hclean |]. by intros x (_ & _ & ?).
Qed.

Lemma parse_dirs_reads_back_witness :
  ParseDirs._parse_dirs (fun _ => None) (String.concat "," ["./output"; "./data"])
  = ["./output"; "./data"].
Proof.
  apply parse_dirs_reads_back_comma_list.
  - repeat constructor; try discriminate; vm_compute; reflexivity.
  - vm_compute. reflexivity.
Defined.

(** ** [_get_api_base] *)

Lemma prefix_app l r : String.prefix l (l +:+ r) = true.
Proof.
  induction l as [|c l IH]; [by destruct r |]. str_simpl. cbn.
  by destruct (ascii_dec c c).
Qed.

Lemma substring_all s : String.substring 0 (String.length s) s = s.
Proof. induction s as [|c s IH]; [done |]. cbn. by rewrite IH. Qed.

Lemma substring_after l r :
  String.substring (String.length l) (String.length (l +:+ r) - String.length l) (l +:+ r)
  = r.
Proof.
  induction l as [|c l IH]; str_simpl.
  - cbn [String.length]. rewrite Nat.sub_0_r. apply substring_all.
  - cbn [String.length String.substring Nat.sub]. apply IH.
Qed.

Lemma rmatch_lit l pat r :
  ApiBase.rmatch (ApiBase.RLit l :: pat) (l +:+ r) =
  match ApiBase.rmatch pat r with
  | Some m => Some (l +:+ m)
  | None => None
  end.
Proof. cbn [ApiBase.rmatch]. by rewrite prefix_app, substring_after. Qed.

(** [[^/]+] at the end of the pattern takes a slash-free host up to the
    next slash or the end of the text. *)
Lemma plus_not_host host tail :
  host ≠ "" → Str.contains "/" host = false →
  (tail = "" ∨ ∃ rest, tail = String "/" rest) →
  ApiBase.plus_not "/" (ApiBase.rmatch []) (host +:+ tail) = Some host.
Proof.
  intros Hne Hslash Htail.
  assert (Hend : ApiBase.plus_not "/" (ApiBase.rmatch []) tail = None).
  { destruct Htail as [->|(rest & ->)]; done. }
  induction host as [|a host IH]; [done |].
  apply contains_cons_false in Hslash as [Ha Hslash].
  str_simpl. cbn [ApiBase.plus_not]. rewrite Ha.
  destruct host as [|b host].
  - str_simpl. by rewrite Hend.
  - by rewrite IH.
Qed.

(** For a base URL made of [http://] or [https://], a host without slash
    and any path, the API base is scheme and host followed by [/api]: the
    path, such as [/v1], plays no part. *)
Theorem api_base_ignores_path (secure : bool) (host tail : string) :
  host ≠ "" → Str.contains "/" host = false →
  (tail = "" ∨ ∃ rest, tail = String "/" rest) →
  ApiBase._get_api_base
    ((if secure then "https" else "http") +:+ "://" +:+ host +:+ tail)
  = (if secure then "https" else "http") +:+ "://" +:+ host +:+ "/api".
Proof.
  intros Hne Hslash Htail. unfold ApiBase._get_api_base, ApiBase.ROOT_PATTERN.
  assert (Hhost : ApiBase.rmatch [ApiBase.RLit "://"; ApiBase.RPlusNot "/"]
                    ("://" +:+ host +:+ tail) = Some ("://" +:+ host)).
  { rewrite rmatch_lit. cbn [ApiBase.rmatch]. by rewrite plus_not_host. }
  destruct secure.
  - change ("https" +:+ "://" +:+ host +:+ tail)
      with ("http" +:+ String "s" ("://" +:+ host +:+ tail)).
    rewrite rmatch_lit. cbn [ApiBase.rmatch] in *. cbn [Ascii.eqb Bool.eqb].
    rewrite Hhost. by str_simpl.
  - rewrite rmatch_lit.
    change ("://" +:+ host +:+ tail) with (String ":" ("//" +:+ host +:+ tail)) at 1.
    cbn [ApiBase.rmatch] in *. cbn [Ascii.eqb Bool.eqb].
    change (String ":" ("//" +:+ host +:+ tail)) with ("://" +:+ host +:+ tail).
    rewrite Hhost. by str_simpl.
Qed.

Lemma api_base_ignores_path_witness :
  ApiBase._get_api_base "https://fastgpt.example.com/v1/chat" =
  "https://fastgpt.example.com/api".
Proof.
  apply (api_base_ignores_path true "fastgpt.example.com" "/v1/chat").
  - discriminate.
  - vm_compute. reflexivity.
  - right. by eexists.
Defined.

Lemma list_ascii_app a b :
  list_ascii_of_string (a +:+ b) = list_ascii_of_string a ++ list_ascii_of_string b.
Proof. induction a as [|c a IH]; [done |]. str_simpl. cbn. by rewrite IH. Qed.

Lemma endswith_char c s :
  PyStr.endswith (String c "") s = true → last (list_ascii_of_string s) = Some c.
Proof.
  induction s as [|a s IH]; [done |]. cbn [PyStr.endswith].
  intros [Heq|Hrest]%orb_true_iff.
  - apply String.eqb_eq in Heq. by injection Heq as -> ->.
  - cbn [list_ascii_of_string]. rewrite last_cons. by rewrite (IH Hrest).
Qed.

(** The API base never ends with a slash, whatever the configured URL. *)
Theorem api_base_has_no_trailing_slash (FASTGPT_BASE_URL : string) :
  PyStr.endswith "/" (ApiBase._get_api_base FASTGPT_BASE_URL) = false.
Proof.
  apply not_true_is_false. intros Hend%endswith_char. revert Hend.
  unfold ApiBase._get_api_base.
  destruct (ApiBase.rmatch ApiBase.ROOT_PATTERN FASTGPT_BASE_URL) as [root|].
  - rewrite list_ascii_app. change (list_ascii_of_string "/api")
      with (["/"; "a"; "p"]%char ++ ["i"%char]).
    rewrite !app_assoc, last_snoc. discriminate.
  - intros Hlast. apply rstrip_by_last in Hlast. discriminate.
Qed.

(** ** [_get_file_hash] *)

Section HashFacts.
Variable hasher : Type.
Variable md5 : hasher.
Variable update : hasher -> list Byte.byte -> hasher.
Variable hexdigest : hasher -> string.

(** The laws of [hashlib]: feeding two chunks is feeding their
    concatenation, and feeding nothing changes nothing. *)
Hypothesis update_app : ∀ h a b, update (update h a) b = update h (a ++ b).
Hypothesis update_nil : ∀ h, update h [] = h.

Lemma read_loop_all fuel :
  ∀ h rest, (length rest < fuel)%nat →
    FileHash.read_loop hasher update fuel h rest = Some (update h rest).
Proof.
  assert (Hpos : (0 < FileHash.CHUNK_SIZE)%nat) by (unfold FileHash.CHUNK_SIZE; lia).
  induction fuel as [|fuel IH]; intros h rest Hlen; [lia |].
  cbn [FileHash.read_loop]. unfold FileHash.read.
  destruct (take FileHash.CHUNK_SIZE rest) as [|b chunk] eqn:Htake.
  - destruct rest as [|b rest]; [by rewrite update_nil |].
    destruct FileHash.CHUNK_SIZE; [lia | discriminate].
  - rewrite IH.
    + by rewrite update_app, <- Htake, take_drop.
    + rewrite length_drop. destruct rest; [done |]. cbn in *. lia.
Qed.

(** Reading the file in chunks of 4096 bytes gives the digest of the whole
    content, as soon as the loop is allowed more reads than the file has
    bytes. *)
Theorem streamed_digest_is_digest_of_content (fuel : nat) (content : list Byte.byte) :
  (length content < fuel)%nat →
  FileHash._get_file_hash hasher md5 update hexdigest fuel content =
  Some (hexdigest (update md5 content)).
Proof.
  intros Hlen. unfold FileHash._get_file_hash. by rewrite read_loop_all.
Qed.

End HashFacts.

Lemma streamed_digest_witness :
  FileHash._get_file_hash (list Byte.byte) [] Fixture.keep_update Fixture.keep_hexdigest
    3 [Byte.x41; Byte.x42] =
  Some (Fixture.keep_hexdigest (Fixture.keep_update [] [Byte.x41; Byte.x42])).
Proof.
  apply (streamed_digest_is_digest_of_content (list Byte.byte) [] Fixture.keep_update
           Fixture.keep_hexdigest).
  - intros h a b. unfold Fixture.keep_update. by rewrite app_assoc.
  - intros h. unfold Fixture.keep_update. by rewrite app_nil_r.
  - cbn. lia.
Defined.

(** ** [_load_state] after [_save_state] *)

Section LoadFacts.
Import StateFile LoadState.
Variable SYNC_STATE_DB : path.
Variable json_chunks : store -> list string.
Variable json_load : string -> option state_value.

(** The calls of [_save_state] up to the first [k] chunks leave the text of
    these chunks in the state file. *)
Lemma save_prefix_contents state_files f k :
  ∃ f', run_ops (Mkdir (parent SYNC_STATE_DB) :: OpenW SYNC_STATE_DB ::
                 map (Write SYNC_STATE_DB) (take k (json_chunks state_files))) f = Some f' ∧
        contents f' =
          <[SYNC_STATE_DB := foldr String.append "" (take k (json_chunks state_files))]>
            (contents f).
Proof.
  pose proof (mkdir_dir_exists f (parent SYNC_STATE_DB)) as Hdir.
  set (f1 := {| dirs := list_to_set (with_parents (parent SYNC_STATE_DB)) ∪ dirs f;
                contents := contents f |}) in *.
  set (f2 := {| dirs := dirs f1; contents := <[SYNC_STATE_DB := ""]> (contents f1) |}).
  destruct (run_writes SYNC_STATE_DB (take k (json_chunks state_files)) f2 "")
    as (f' & Hrun & _ & Hc).
  { apply lookup_insert_eq. }
  exists f'. cbn [run_ops].
  change (fs_step f (Mkdir (parent SYNC_STATE_DB))) with (Some f1). cbn iota.
  assert (Hopen : fs_step f1 (OpenW SYNC_STATE_DB) = Some f2).
  { cbn [fs_step]. by rewrite Hdir. }
  rewrite Hopen. split; [done |]. rewrite Hc. cbn. by rewrite insert_insert_eq.
Qed.

Lemma load_state_of_contents f text :
  contents f !! SYNC_STATE_DB = Some text →
  _load_state SYNC_STATE_DB json_load f =
  match json_load text with Some v => v | None => empty_state end.
Proof.
  intros Hc. unfold _load_state, path_exists. rewrite Hc.
  by rewrite bool_decide_eq_true_2.
Qed.



End LoadFacts.



(** ** [main] and [auto_pipeline] *)

Lemma concat_cons_first sep a h t :
  String.concat sep (String a h :: t) = String a (String.concat sep (h :: t)).
Proof. by destruct t. Qed.

Lemma split_join sep s :
  String.concat (String sep "") (PyStr.split sep s) = s.
Proof.
  unfold PyStr.split. induction s as [|a s IH]; [done |].
  cbn [PyStr.split_aux]. destruct (PyStr.split_aux sep s) as [h t].
  destruct (Ascii.eqb a sep) eqn:Ha.
  - apply Ascii.eqb_eq in Ha as ->.
    change (String.concat (String sep "") ("" :: h :: t))
      with ("" +:+ String sep "" +:+ String.concat (String sep "") (h :: t)).
    str_simpl. by rewrite IH.
  - by rewrite concat_cons_first, IH.
Qed.

Lemma contains_cons sep a d :
  Ascii.eqb a sep = false → Str.contains (String sep "") d = false →
  Str.contains (String sep "") (String a d) = false.
Proof.
  intros Ha Hd. cbn [Str.contains]. rewrite Hd, orb_false_r. cbn.
  destruct (ascii_dec sep a) as [->|Hne]; [| done].
  by rewrite Ascii.eqb_refl in Ha.
Qed.

Lemma split_no_sep sep s :
  Forall (fun d => Str.contains (String sep "") d = false) (PyStr.split sep s).
Proof.
  unfold PyStr.split. induction s as [|a s IH]; [by repeat constructor |].
  cbn [PyStr.split_aux]. destruct (PyStr.split_aux sep s) as [h t].
  inversion IH as [|? ? Hh Ht]; subst.
  destruct (Ascii.eqb a sep) eqn:Ha.
  - constructor; [done | by constructor].
  - constructor; [by apply contains_cons | done].
Qed.


Lemma run_steps_spec run_step todo :
  ∀ count ran,
    let r := Main.run_steps run_step todo count ran in
    ∃ ok rest,
      todo = ok ++ rest ∧ Forall (fun st => run_step st = true) ok ∧
      r.1 = (count + length ok)%nat ∧
      ((rest = [] ∧ r.2 = ran ++ ok) ∨
       ∃ bad rest', rest = bad :: rest' ∧ run_step bad = false ∧ r.2 = ran ++ ok ++ [bad]).
Proof.
  induction todo as [|st todo IH]; intros count ran; cbn [Main.run_steps].
  - exists [], []. cbn. rewrite app_nil_r.
    split; [done |]. split; [constructor |]. split; [lia |]. by left.
  - destruct (run_step st) eqn:Hst.
    + destruct (IH (S count) (ran ++ [st])) as (ok & rest & -> & Hok & Hc & Hran).
      exists (st :: ok), rest. cbn zeta in *. split; [done |].
      split; [by constructor |]. split; [rewrite Hc; cbn; lia |].
      destruct Hran as [[-> Hr]|(bad & rest' & -> & Hbad & Hr)].
      * left. split; [done |]. rewrite Hr. by rewrite <- app_assoc.
      * right. exists bad, rest'. repeat split; [done |]. rewrite Hr.
        by rewrite <- app_assoc.
    + exists [], (st :: todo). cbn.
      split; [done |]. split; [constructor |]. split; [lia |].
      right. by exists st, todo.
Qed.

(** [auto_pipeline] runs its steps in order up to the first one that fails
    and counts the successful ones; the synchronisation script is run, with
    [--once] and the upload mode, exactly when download and translation both
    succeeded. *)
Theorem auto_pipeline_stops_at_first_failure
    (run_step : Main.step → bool) (UPLOAD_MODE : string) :
  let r := Main.auto_pipeline run_step UPLOAD_MODE in
  (∃ ok rest,
     Main.steps UPLOAD_MODE = ok ++ rest ∧ Forall (fun st => run_step st = true) ok ∧
     r.1 = length ok ∧
     ((rest = [] ∧ r.2 = ok) ∨
      ∃ bad rest', rest = bad :: rest' ∧ run_step bad = false ∧ r.2 = ok ++ [bad])) ∧
  ((∃ st, st ∈ r.2 ∧ Main.script_name st = "fastgpt_sync.py") ↔
   r.2 = Main.steps UPLOAD_MODE) ∧
  (r.2 = Main.steps UPLOAD_MODE ↔
   ∃ download translate sync,
     Main.steps UPLOAD_MODE = [download; translate; sync] ∧
     Main.args sync = Some ["--once"; "--mode=" +:+ UPLOAD_MODE] ∧
     run_step download = true ∧ run_step translate = true).
Proof.
  cbn zeta. split.
  - destruct (run_steps_spec run_step (Main.steps UPLOAD_MODE) 0 [])
      as (ok & rest & Heq & Hok & Hc & Hran).
    exists ok, rest. repeat split; try done.
  - unfold Main.auto_pipeline, Main.steps. cbn [Main.run_steps].
    destruct (run_step _) eqn:H1; [destruct (run_step _) eqn:H2 in |- *;
      [destruct (run_step _) eqn:H3 in |- * |] |]; cbn [fst snd app]; split.
    all: try (split; [intros _; reflexivity | intros _; eexists; split;
                [apply list_elem_of_further, list_elem_of_further, list_elem_of_here
                | reflexivity]]).
    all: try (split; [intros _; by eexists _, _, _ | done]).
    all: try (split; [intros (st & Hin & Hname) | intros [=]]).
    all: try (split; [intros [=] | intros (d & t & sy & [= <- <- <-] & _ & Hd & Ht);
                                   congruence]).
    all: exfalso; rewrite ?elem_of_cons, elem_of_nil in Hin;
      repeat (destruct Hin as [->|Hin]; [discriminate Hname |]); done.
Qed.
